(** * pglogrepl_demo: the logical-replication apply pipeline of
      [example/pglogrepl_demo/main.go], embedded shallowly.

    Go values are modelled as the program has them: LSNs (uint64), OIDs
    (uint32), instants and durations as [Z]; byte slices as [list byte];
    Go maps as [gmap]; slices indexed by position with list lookup, an
    index outside the slice being a run-time panic.  [log.Fatal*] ends the
    process and is the [Fatal] outcome; a run-time panic is [Panic].

    The functions of the [pglogrepl] and [pgx] packages that [main.go]
    calls (the message parsers, identifier quoting, the codecs of the type
    registry) are not part of the file under study; they are taken as
    parameters through the classes [Pgx] and [Pglogrepl] and through the
    registry value itself. *)

From Stdlib Require Import ZArith String Ascii List Lia.
From Stdlib.Strings Require Import Byte.
From Stdlib Require Import Decimal DecimalString Sorted.
From stdpp Require Import gmap strings list fin_maps.

Open Scope Z_scope.

(** ** Scalars *)

(** [pglogrepl.LSN] is a [uint64]. *)
Definition LSN : Type := Z.
(** [time.Time], as nanoseconds since the Unix epoch. *)
Definition Time : Type := Z.
(** [time.Duration] is an [int64] count of nanoseconds. *)
Definition Duration : Type := Z.
Definition Second : Duration := 1000000000.
(** Go's [error] values are only ever printed here. *)
Definition error : Type := string.

Definition maxDuration : Duration := 2 ^ 63 - 1.
Definition minDuration : Duration := - 2 ^ 63.

(** [t.Sub(u)]: the difference, saturated to the range of [Duration]. *)
Definition Sub (t u : Time) : Duration :=
  if maxDuration <? t - u then maxDuration
  else if t - u <? minDuration then minDuration
  else t - u.

(** [time.Since(t)] at an instant [now] read from the clock. *)
Definition Since (now t : Time) : Duration := Sub now t.

(** [time.Time{}], the zero instant (year 1), before every clock reading. *)
Definition zeroTime : Time := -62135596800 * Second.

(** ** Messages of the [pglogrepl] package (type declarations) *)

Record RelationMessageColumn := {
  Flags : Z;
  Name : string;
  DataType : Z;
  TypeModifier : Z
}.

Record RelationMessage := {
  RelationID : Z;
  Namespace : string;
  RelationName : string;
  ReplicaIdentity : Z;
  Columns : list RelationMessageColumn
}.

Record RelationMessageV2 := {
  RelationV2 : RelationMessage;
  RelationXid : Z
}.

(** One column of a tuple: [colDataType] is the wire kind byte
    ('n' null, 'u' unchanged toast, 't' text). *)
Record TupleDataColumn := {
  colDataType : byte;
  Data : list byte
}.

Record TupleData := {
  TupleColumns : list TupleDataColumn
}.

Record InsertMessage := {
  InsertRelationID : Z;
  Tuple : TupleData
}.

Record InsertMessageV2 := {
  InsertV2 : InsertMessage;
  InsertXid : Z
}.

Record CommitMessage := {
  CommitFlags : Z;
  CommitLSN : LSN;
  TransactionEndLSN : LSN;
  CommitTime : Time
}.

(** The dynamic types a decoded [pglogrepl.Message] can have.  Row events
    other than inserts carry the relation they change and, in protocol
    version 2, the transaction id; [OtherMessage] stands for any further
    implementation of the interface, named by its [%T]. *)
Inductive Message :=
  | MRelation (m : RelationMessage)
  | MRelationV2 (m : RelationMessageV2)
  | MBegin (finalLSN : LSN) (commitTime : Time) (xid : Z)
  | MCommit (m : CommitMessage)
  | MInsert (m : InsertMessage)
  | MInsertV2 (m : InsertMessageV2)
  | MUpdate (relationID : Z) (newTuple : TupleData)
  | MUpdateV2 (relationID : Z) (newTuple : TupleData) (xid : Z)
  | MDelete (relationID : Z)
  | MDeleteV2 (relationID : Z) (xid : Z)
  | MTruncate (relationIDs : list Z)
  | MTruncateV2 (relationIDs : list Z) (xid : Z)
  | MType
  | MTypeV2
  | MOrigin
  | MLogicalDecoding (prefix : string) (content : list byte)
  | MLogicalDecodingV2 (prefix : string) (content : list byte) (xid : Z)
  | MStreamStartV2 (xid : Z) (firstSegment : Z)
  | MStreamStopV2
  | MStreamCommitV2 (xid : Z)
  | MStreamAbortV2 (xid : Z)
  | OtherMessage (typeName : string).

(** [msg.Type().String()], printed by [processV1]; only logged. *)
Definition messageTypeName (m : Message) : string :=
  match m with
  | MRelation _ | MRelationV2 _ => "Relation"
  | MBegin _ _ _ => "Begin"
  | MCommit _ => "Commit"
  | MInsert _ | MInsertV2 _ => "Insert"
  | MUpdate _ _ | MUpdateV2 _ _ _ => "Update"
  | MDelete _ | MDeleteV2 _ _ => "Delete"
  | MTruncate _ | MTruncateV2 _ _ => "Truncate"
  | MType | MTypeV2 => "Type"
  | MOrigin => "Origin"
  | MLogicalDecoding _ _ | MLogicalDecodingV2 _ _ _ => "Message"
  | MStreamStartV2 _ _ => "StreamStart"
  | MStreamStopV2 => "StreamStop"
  | MStreamCommitV2 _ => "StreamCommit"
  | MStreamAbortV2 _ => "StreamAbort"
  | OtherMessage n => n
  end.

Record PrimaryKeepaliveMessage := {
  ServerWALEnd : LSN;
  ServerTime : Time;
  ReplyRequested : bool
}.

Record XLogData := {
  WALStart : LSN;
  xldServerWALEnd : LSN;
  xldServerTime : Time;
  WALData : list byte
}.

(** ** External collaborators *)

(** [pgx.Identifier.Sanitize]: quoting of a qualified identifier. *)
Class Pgx := {
  Sanitize : list string -> string
}.

(** How a call of [Parse] or [ParseV2] can fail: it returns an error, or
    it panics (both index the buffer before looking at its length). *)
Inductive ParseFailure :=
  | ReturnedError (err : error)
  | Panicked (reason : string).

(** The parsers and message tags of the [pglogrepl] package. *)
Class Pglogrepl := {
  Parse : list byte -> Message + ParseFailure;
  ParseV2 : list byte -> bool -> Message + ParseFailure;
  PrimaryKeepaliveMessageByteID : byte;
  XLogDataByteID : byte;
  ParsePrimaryKeepaliveMessage : list byte -> PrimaryKeepaliveMessage + error;
  ParseXLogData : list byte -> XLogData + error
}.

Section Values.
Context {Native : Type}.

(** Go's [interface{}] values that this program builds: [nil], a string,
    a value produced by a codec of the type registry, and the commit
    position and time handed to the origin write. *)
Inductive any :=
  | AnyNil
  | AnyString (s : string)
  | AnyNative (v : Native)
  | AnyLSN (l : LSN)
  | AnyTime (t : Time).

(** [pgtype.Codec], reduced to the method called here:
    [DecodeValue(m, oid, format, src)]. *)
Record Codec := {
  DecodeValue : Z -> Z -> list byte -> any + error
}.

(** [pgtype.Type]. *)
Record pgType := {
  TypeName : string;
  OID : Z;
  TypeCodec : Codec
}.

(** A line handed to the [log] package: the format and its operands. *)
Inductive LogArg :=
  | LInt (z : Z)
  | LStr (s : string)
  | LBytes (b : list byte)
  | LErr (e : error)
  | LDuration (d : Duration)
  | LValues (m : gmap string any).

Record LogEntry := Printf {
  format : string;
  operands : list LogArg
}.

(** [pgx.QueuedQuery]. *)
Record QueuedQuery := {
  SQL : string;
  Arguments : list any
}.

End Values.

Arguments any : clear implicits.
Arguments Codec : clear implicits.
Arguments pgType : clear implicits.
Arguments LogArg : clear implicits.
Arguments LogEntry : clear implicits.
Arguments QueuedQuery : clear implicits.

(** ** Outcomes of a call: normal return, [log.Fatal*], run-time panic *)

Inductive Outcome (L A : Type) :=
  | Done (a : A)
  | Fatal (entry : L)
  | Panic (reason : string).

Arguments Done {L A} a.
Arguments Fatal {L A} entry.
Arguments Panic {L A} reason.

Definition obind {L A B} (m : Outcome L A) (k : A -> Outcome L B) : Outcome L B :=
  match m with
  | Done a => k a
  | Fatal e => Fatal e
  | Panic r => Panic r
  end.

Notation "'do' x <- m ; k" := (obind m (fun x => k))
  (at level 10, x name, m at level 100, k at level 200).

Definition TextFormatCode : Z := 0.

Section Decode.
Context {Native : Type}.

(** [decodeTextColumnData] (main.go 425-430). *)
Definition decodeTextColumnData (mi : gmap Z (pgType Native))
    (data : list byte) (dataType : Z) : any Native + error :=
  match mi !! dataType with
  | Some dt => DecodeValue (TypeCodec dt) dataType TextFormatCode data
  | None => inl (AnyString (string_of_list_byte data))
  end.

End Decode.

(** ** The apply context (main.go 214-259) *)

(** The clock side of a [*time.Timer]: idle (stopped or expired), or
    counting down the duration it was last started with.  The channel
    side is the field [timerC] of the apply context. *)
Inductive Timer :=
  | TimerIdle
  | TimerActive (d : Duration).

(** What a call reads from outside the program: the clock at the
    [time.Since] of [commit], at the two readings around [SendBatch], at
    the final [time.Now] of [flush], and the error of [SendBatch]. *)
Record Env := {
  now : Time;
  before : Time;
  afterSend : Time;
  flushedAt : Time;
  sendBatchErr : option error
}.

Definition nl : string := String (ascii_of_nat 10) EmptyString.

(** [strconv.Itoa] on a non-negative index. *)
Definition itoa (n : nat) : string := NilZero.string_of_uint (Nat.to_uint n).

Section Apply.
Context {Native : Type} {pgx : Pgx} {repl : Pglogrepl}.

#[local] Abbreviation any := (any Native).
#[local] Abbreviation LogEntry := (LogEntry Native).
#[local] Abbreviation QueuedQuery := (QueuedQuery Native).
#[local] Abbreviation Result := (Outcome LogEntry).

(** [applyContext].  [conn] is the target store seen through the
    connection: the groups of queries it has executed, oldest first.
    The field [tx] is never read or written and is left out.  The Go
    field [timer] is both [timer], whether the timer is running, and
    [timerC], whether a tick sits in its channel [timer.C] (of capacity
    one): an expiring timer stops running and leaves a tick there, and
    neither [Stop] nor [Reset] takes a tick out again. *)
Record applyContext := {
  conn : list (list QueuedQuery);
  batch : list QueuedQuery;
  lastCommitTime : Time;
  commitLSN : LSN;
  commitTime : Time;
  txnInProgress : bool;
  timer : Timer;
  timerC : bool
}.

(** [applyContext.queue] (225-227). *)
Definition queue (q : string) (args : list any) (a : applyContext) : applyContext :=
  {| conn := conn a;
     batch := batch a ++ [{| SQL := q; Arguments := args |}];
     lastCommitTime := lastCommitTime a;
     commitLSN := commitLSN a;
     commitTime := commitTime a;
     txnInProgress := txnInProgress a;
     timer := timer a;
     timerC := timerC a |}.

Definition withTimer (t : Timer) (a : applyContext) : applyContext :=
  {| conn := conn a;
     batch := batch a;
     lastCommitTime := lastCommitTime a;
     commitLSN := commitLSN a;
     commitTime := commitTime a;
     txnInProgress := txnInProgress a;
     timer := t;
     timerC := timerC a |}.

Definition withTimerC (tick : bool) (a : applyContext) : applyContext :=
  {| conn := conn a;
     batch := batch a;
     lastCommitTime := lastCommitTime a;
     commitLSN := commitLSN a;
     commitTime := commitTime a;
     txnInProgress := txnInProgress a;
     timer := timer a;
     timerC := tick |}.

(** [applyContext.begin] (229-232): [Stop] ends the countdown; its
    result is dropped and a tick already in the channel stays there. *)
Definition begin (a : applyContext) : applyContext :=
  withTimer TimerIdle
    {| conn := conn a;
       batch := batch a;
       lastCommitTime := lastCommitTime a;
       commitLSN := commitLSN a;
       commitTime := commitTime a;
       txnInProgress := true;
       timer := timer a;
     timerC := timerC a |}.

Definition originQuery : string :=
  "select pg_replication_origin_xact_setup($1, $2)".

(** The query queued by line 250. *)
Definition originAck (lsn : LSN) (ts : Time) : QueuedQuery :=
  {| SQL := originQuery; Arguments := [AnyLSN lsn; AnyTime ts] |}.

(** The context once lines 257-258 have run after a successful
    [SendBatch] of [queued]. *)
Definition flushed (env : Env) (queued : list QueuedQuery) (a : applyContext)
    : applyContext :=
  {| conn := conn a ++ [queued];
     batch := [];
     lastCommitTime := flushedAt env;
     commitLSN := commitLSN a;
     commitTime := commitTime a;
     txnInProgress := txnInProgress a;
     timer := timer a;
     timerC := timerC a |}.

(** [applyContext.flush] (245-259); returns the context and the lines
    it logged. *)
Definition flush (env : Env) (a : applyContext)
    : Result (applyContext * list LogEntry) :=
  if (length (batch a) =? 0)%nat then Done (a, [])
  else
    let queued := batch a ++ [originAck (commitLSN a) (commitTime a)] in
    match sendBatchErr env with
    | Some err => Fatal (Printf "failed to apply batch: %v" [LErr err])
    | None =>
        Done (flushed env queued a,
              [Printf "commit took %v queue %d"
                 [LDuration (Since (afterSend env) (before env));
                  LInt (Z.of_nat (length queued))]])
    end.

(** Lines 235-237. *)
Definition recordCommit (lsn : LSN) (ts : Time) (a : applyContext) : applyContext :=
  {| conn := conn a;
     batch := batch a;
     lastCommitTime := lastCommitTime a;
     commitLSN := lsn;
     commitTime := ts;
     txnInProgress := false;
     timer := timer a;
     timerC := timerC a |}.

(** [applyContext.commit] (234-243); [Reset] restarts the countdown and
    leaves the channel as it is. *)
Definition commit (env : Env) (lsn : LSN) (ts : Time) (a : applyContext)
    : Result (applyContext * list LogEntry) :=
  let a := recordCommit lsn ts a in
  if 2 * Second <? Since (now env) (lastCommitTime a) then
    flush env a
  else
    Done (withTimer (TimerActive (2 * Second)) a, []).

(** ** Building the insert (main.go 290-328) *)

(** The loop of lines 293-314 from index [idx] on: the column name is
    appended for every column of the tuple before its kind is looked at;
    only 'n' and 't' columns add a value.  The switch on the kind byte
    compares it with each case in turn and has no default. *)
Fixpoint insertColumnsV2 (typeMap : gmap Z (pgType Native))
    (rel : RelationMessage) (cols : list TupleDataColumn) (idx : nat)
    (query : string) (vals : list any) : Result (string * list any) :=
  match cols with
  | [] => Done (query, vals)
  | col :: rest =>
      match Columns rel !! idx with
      | None => Panic "index out of range"
      | Some rc =>
          let colName := Sanitize [Name rc] in
          let query :=
            if (idx =? 0)%nat then query +:+ colName
            else query +:+ ", " +:+ colName in
          if Byte.eqb (colDataType col) "n" then
            insertColumnsV2 typeMap rel rest (S idx) query (vals ++ [AnyNil])
          else if Byte.eqb (colDataType col) "u" then
            insertColumnsV2 typeMap rel rest (S idx) query vals
          else if Byte.eqb (colDataType col) "t" then
            match decodeTextColumnData typeMap (Data col) (DataType rc) with
            | inr err => Fatal (Printf "error decoding column data: %v" [LErr err])
            | inl val =>
                insertColumnsV2 typeMap rel rest (S idx) query (vals ++ [val])
            end
          else insertColumnsV2 typeMap rel rest (S idx) query vals
      end
  end.

(** The loop of lines 316-322: one placeholder per tuple column. *)
Fixpoint insertPlaceholders (cols : list TupleDataColumn) (idx : nat)
    (query : string) : string :=
  match cols with
  | [] => query
  | _ :: rest =>
      let query :=
        if (idx =? 0)%nat then query +:+ "$" +:+ itoa (idx + 1)
        else query +:+ ", $" +:+ itoa (idx + 1) in
      insertPlaceholders rest (S idx) query
  end.

(** Lines 290-328 once the relation is found: the query text and the
    values queued with it. *)
Definition buildInsertV2 (typeMap : gmap Z (pgType Native))
    (rel : RelationMessage) (tuple : TupleData) : Result (string * list any) :=
  let query :=
    "INSERT INTO " +:+ Sanitize [Namespace rel; RelationName rel] +:+ "(" in
  do qv <- insertColumnsV2 typeMap rel (TupleColumns tuple) 0 query [];
  let query := fst qv +:+ ") overriding system value VALUES(" in
  let query := insertPlaceholders (TupleColumns tuple) 0 query in
  let query := query +:+ ")" in
  Done (query, snd qv).

(** The loop of [processV1] (382-396): the map from column name to
    value; an unchanged-toast column gets no entry. *)
Fixpoint insertValuesV1 (typeMap : gmap Z (pgType Native))
    (rel : RelationMessage) (cols : list TupleDataColumn) (idx : nat)
    (values : gmap string any) : Result (gmap string any) :=
  match cols with
  | [] => Done values
  | col :: rest =>
      match Columns rel !! idx with
      | None => Panic "index out of range"
      | Some rc =>
          let colName := Name rc in
          if Byte.eqb (colDataType col) "n" then
            insertValuesV1 typeMap rel rest (S idx) (<[colName := AnyNil]> values)
          else if Byte.eqb (colDataType col) "u" then
            insertValuesV1 typeMap rel rest (S idx) values
          else if Byte.eqb (colDataType col) "t" then
            match decodeTextColumnData typeMap (Data col) (DataType rc) with
            | inr err => Fatal (Printf "error decoding column data: %v" [LErr err])
            | inl val =>
                insertValuesV1 typeMap rel rest (S idx) (<[colName := val]> values)
            end
          else insertValuesV1 typeMap rel rest (S idx) values
      end
  end.

End Apply.

Arguments applyContext : clear implicits.

(** ** The apply goroutine (main.go 134-148, 261-423) *)

(** [%T] of a decoded message. *)
Definition goTypeName (m : Message) : string :=
  match m with
  | MRelation _ => "*pglogrepl.RelationMessage"
  | MRelationV2 _ => "*pglogrepl.RelationMessageV2"
  | MBegin _ _ _ => "*pglogrepl.BeginMessage"
  | MCommit _ => "*pglogrepl.CommitMessage"
  | MInsert _ => "*pglogrepl.InsertMessage"
  | MInsertV2 _ => "*pglogrepl.InsertMessageV2"
  | MUpdate _ _ => "*pglogrepl.UpdateMessage"
  | MUpdateV2 _ _ _ => "*pglogrepl.UpdateMessageV2"
  | MDelete _ => "*pglogrepl.DeleteMessage"
  | MDeleteV2 _ _ => "*pglogrepl.DeleteMessageV2"
  | MTruncate _ => "*pglogrepl.TruncateMessage"
  | MTruncateV2 _ _ => "*pglogrepl.TruncateMessageV2"
  | MType => "*pglogrepl.TypeMessage"
  | MTypeV2 => "*pglogrepl.TypeMessageV2"
  | MOrigin => "*pglogrepl.OriginMessage"
  | MLogicalDecoding _ _ => "*pglogrepl.LogicalDecodingMessage"
  | MLogicalDecodingV2 _ _ _ => "*pglogrepl.LogicalDecodingMessageV2"
  | MStreamStartV2 _ _ => "*pglogrepl.StreamStartMessageV2"
  | MStreamStopV2 => "*pglogrepl.StreamStopMessageV2"
  | MStreamCommitV2 _ => "*pglogrepl.StreamCommitMessageV2"
  | MStreamAbortV2 _ => "*pglogrepl.StreamAbortMessageV2"
  | OtherMessage n => n
  end.

Definition outputPlugin : string := "pgoutput".

(** Line 90: [v2] is set when the plugin is pgoutput. *)
Definition v2 : bool := bool_decide (outputPlugin = "pgoutput").

Section Process.
Context {Native : Type} {pgx : Pgx} {repl : Pglogrepl}.

#[local] Abbreviation any := (any Native).
#[local] Abbreviation LogEntry := (LogEntry Native).
#[local] Abbreviation Result := (Outcome LogEntry).
#[local] Abbreviation applyContext := (applyContext Native).

(** Everything the apply goroutine owns or writes: the two relation
    caches, the streaming flag, the apply context, the lines logged, and
    the calls made to [ParseV2] (buffer and flag passed), oldest first. *)
Record World := {
  relations : gmap Z RelationMessage;
  relationsV2 : gmap Z RelationMessageV2;
  inStream : bool;
  applyCtx : applyContext;
  logged : list LogEntry;
  decoded : list (list byte * bool)
}.

Definition withRelations (r : gmap Z RelationMessage) (w : World) : World :=
  {| relations := r; relationsV2 := relationsV2 w; inStream := inStream w;
     applyCtx := applyCtx w; logged := logged w; decoded := decoded w |}.

Definition withRelationsV2 (r : gmap Z RelationMessageV2) (w : World) : World :=
  {| relations := relations w; relationsV2 := r; inStream := inStream w;
     applyCtx := applyCtx w; logged := logged w; decoded := decoded w |}.

Definition withInStream (b : bool) (w : World) : World :=
  {| relations := relations w; relationsV2 := relationsV2 w; inStream := b;
     applyCtx := applyCtx w; logged := logged w; decoded := decoded w |}.

Definition withApplyCtx (a : applyContext) (w : World) : World :=
  {| relations := relations w; relationsV2 := relationsV2 w; inStream := inStream w;
     applyCtx := a; logged := logged w; decoded := decoded w |}.

Definition logPrintf (l : list LogEntry) (w : World) : World :=
  {| relations := relations w; relationsV2 := relationsV2 w; inStream := inStream w;
     applyCtx := applyCtx w; logged := logged w ++ l; decoded := decoded w |}.

Definition noteDecode (walData : list byte) (w : World) : World :=
  {| relations := relations w; relationsV2 := relationsV2 w; inStream := inStream w;
     applyCtx := applyCtx w; logged := logged w;
     decoded := decoded w ++ [(walData, inStream w)] |}.

(** The type switch of [processV2] (266-358) on a decoded message. *)
Definition switchV2 (env : Env) (typeMap : gmap Z (pgType Native))
    (logicalMsg : Message) (w : World) : Result World :=
  match logicalMsg with
  | MRelationV2 m =>
      Done (withRelationsV2 (<[RelationID (RelationV2 m) := m]> (relationsV2 w)) w)
  | MBegin _ _ _ =>
      Done (withApplyCtx (begin (applyCtx w)) w)
  | MCommit m =>
      do al <- commit env (CommitLSN m) (CommitTime m) (applyCtx w);
      Done (logPrintf (snd al) (withApplyCtx (fst al) w))
  | MInsertV2 m =>
      match relationsV2 w !! InsertRelationID (InsertV2 m) with
      | None =>
          Fatal (Printf "unknown relation ID %d" [LInt (InsertRelationID (InsertV2 m))])
      | Some rel =>
          do qv <- buildInsertV2 typeMap (RelationV2 rel) (Tuple (InsertV2 m));
          Done (withApplyCtx (queue (fst qv) (snd qv) (applyCtx w)) w)
      end
  | MUpdateV2 _ _ xid =>
      Done (logPrintf [Printf ("update for xid %d" +:+ nl) [LInt xid]] w)
  | MDeleteV2 _ xid =>
      Done (logPrintf [Printf ("delete for xid %d" +:+ nl) [LInt xid]] w)
  | MTruncateV2 _ xid =>
      Done (logPrintf [Printf ("truncate for xid %d" +:+ nl) [LInt xid]] w)
  | MTypeV2 => Done w
  | MOrigin => Done w
  | MLogicalDecodingV2 prefix content xid =>
      Done (logPrintf [Printf "Logical decoding message: %q, %q, %d"
                         [LStr prefix; LBytes content; LInt xid]] w)
  | MStreamStartV2 xid firstSegment =>
      Done (logPrintf [Printf "Stream start message: xid %d, first segment? %d"
                         [LInt xid; LInt firstSegment]]
              (withInStream true w))
  | MStreamStopV2 =>
      Done (logPrintf [Printf "Stream stop message" []] (withInStream false w))
  | MStreamCommitV2 xid =>
      Done (logPrintf [Printf "Stream commit message: xid %d" [LInt xid]] w)
  | MStreamAbortV2 xid =>
      Done (logPrintf [Printf "Stream abort message: xid %d" [LInt xid]] w)
  | _ =>
      Done (logPrintf [Printf "Unknown message type in pgoutput stream: %T"
                         [LStr (goTypeName logicalMsg)]] w)
  end.

(** [processV2] (261-359): decode with the current flag, then switch. *)
Definition processV2 (env : Env) (typeMap : gmap Z (pgType Native))
    (walData : list byte) (w : World) : Result World :=
  match ParseV2 walData (inStream w) with
  | inr (Panicked reason) => Panic reason
  | inr (ReturnedError err) =>
      Fatal (Printf "Parse logical replication message: %s" [LErr err])
  | inl logicalMsg => switchV2 env typeMap logicalMsg (noteDecode walData w)
  end.

(** The type switch of [processV1] (367-422). *)
Definition switchV1 (typeMap : gmap Z (pgType Native))
    (logicalMsg : Message) (w : World) : Result World :=
  match logicalMsg with
  | MRelation m =>
      Done (withRelations (<[RelationID m := m]> (relations w)) w)
  | MBegin _ _ _ => Done w
  | MCommit _ => Done w
  | MInsert m =>
      match relations w !! InsertRelationID m with
      | None => Fatal (Printf "unknown relation ID %d" [LInt (InsertRelationID m)])
      | Some rel =>
          do values <- insertValuesV1 typeMap rel (TupleColumns (Tuple m)) 0 ∅;
          Done (logPrintf [Printf "INSERT INTO %s.%s: %v"
                             [LStr (Namespace rel); LStr (RelationName rel);
                              LValues values]] w)
      end
  | MUpdate _ _ => Done w
  | MDelete _ => Done w
  | MTruncate _ => Done w
  | MType => Done w
  | MOrigin => Done w
  | MLogicalDecoding prefix content =>
      Done (logPrintf [Printf "Logical decoding message: %q, %q"
                         [LStr prefix; LBytes content]] w)
  | MStreamStartV2 xid firstSegment =>
      Done (logPrintf [Printf "Stream start message: xid %d, first segment? %d"
                         [LInt xid; LInt firstSegment]] w)
  | MStreamStopV2 =>
      Done (logPrintf [Printf "Stream stop message" []] w)
  | MStreamCommitV2 xid =>
      Done (logPrintf [Printf "Stream commit message: xid %d" [LInt xid]] w)
  | MStreamAbortV2 xid =>
      Done (logPrintf [Printf "Stream abort message: xid %d" [LInt xid]] w)
  | _ =>
      Done (logPrintf [Printf "Unknown message type in pgoutput stream: %T"
                         [LStr (goTypeName logicalMsg)]] w)
  end.

(** [processV1] (361-423). *)
Definition processV1 (typeMap : gmap Z (pgType Native))
    (walData : list byte) (w : World) : Result World :=
  match Parse walData with
  | inr (Panicked reason) => Panic reason
  | inr (ReturnedError err) =>
      Fatal (Printf "Parse logical replication message: %s" [LErr err])
  | inl logicalMsg =>
      switchV1 typeMap logicalMsg
        (logPrintf [Printf "Receive a logical replication message: %s"
                      [LStr (messageTypeName logicalMsg)]] w)
  end.

(** What happens to the goroutine: its [select] (137-146) receives a
    tick from the timer's channel or a buffer from [walDataCh]; and,
    outside the goroutine, the runtime lets a running timer expire. *)
Inductive Event :=
  | TimerC
  | WalDataCh (walData : list byte)
  | TimerExpires.

(** One event.  The timer case of the [select] is ready only while a
    tick is in the channel; receiving takes it out and [flush] runs.
    Without a tick there is nothing to receive and nothing happens.  An
    expiring timer stops running and leaves a tick in the channel; on a
    timer that is not running nothing expires. *)
Definition applyStep (typeMap : gmap Z (pgType Native))
    (ev : Event) (env : Env) (w : World) : Result World :=
  match ev with
  | TimerC =>
      if timerC (applyCtx w) then
        do al <- flush env (withTimerC false (applyCtx w));
        Done (logPrintf (snd al) (withApplyCtx (fst al) w))
      else Done w
  | WalDataCh walData =>
      if v2 then processV2 env typeMap walData w
      else processV1 typeMap walData w
  | TimerExpires =>
      match timer (applyCtx w) with
      | TimerIdle => Done w
      | TimerActive _ =>
          Done (withApplyCtx (withTimerC true (withTimer TimerIdle (applyCtx w))) w)
      end
  end.

(** The goroutine over a sequence of events; a fatal error or a panic
    ends the process and nothing after it runs. *)
Fixpoint applyLoop (typeMap : gmap Z (pgType Native))
    (evs : list (Event * Env)) (w : World) : Result World :=
  match evs with
  | [] => Done w
  | (ev, env) :: rest =>
      do w' <- applyStep typeMap ev env w;
      applyLoop typeMap rest w'
  end.

(** The state built by lines 124-132, [startup] being the clock reading
    of line 132. *)
Definition initWorld (startup : Time) : World :=
  {| relations := ∅;
     relationsV2 := ∅;
     inStream := false;
     applyCtx :=
       {| conn := []; batch := []; lastCommitTime := startup;
          commitLSN := 0; commitTime := zeroTime;
          txnInProgress := false; timer := TimerActive (2 * Second);
          timerC := false |};
     logged := [];
     decoded := [] |}.

End Process.

Arguments World : clear implicits.

(** ** The receive loop (main.go 121-123, 150-211) *)

(** The dynamic types of the message returned by [conn.ReceiveMessage]. *)
Inductive BackendMessage :=
  | ErrorResponse (e : error)
  | CopyData (data : list byte)
  | OtherBackendMessage (typeName : string).

(** The result of [conn.ReceiveMessage(ctx)]. *)
Inductive Received :=
  | RecvTimeout
  | RecvFailed (err : error)
  | RecvMessage (rawMsg : BackendMessage).

(** What one iteration reads from outside: the clock at line 151, the
    error of [SendStandbyStatusUpdate], the clock at line 157, and what
    is received. *)
Record LoopEnv := {
  loopNow : Time;
  sendStatusErr : option error;
  afterStatus : Time;
  received : Received
}.

Definition standbyMessageTimeout : Duration := 10 * Second.

Section Receive.
Context {Native : Type} {repl : Pglogrepl}.

#[local] Abbreviation LogEntry := (LogEntry Native).
#[local] Abbreviation Result := (Outcome LogEntry).

(** The variables of the loop, with what it has sent: the buffers put on
    [walDataCh] and the positions reported to the server, oldest first. *)
Record Consumer := {
  clientXLogPos : LSN;
  nextStandbyMessageDeadline : Time;
  walDataCh : list (list byte);
  statusUpdates : list LSN;
  consumerLog : list LogEntry
}.

(** Lines 151-158. *)
Definition standbyStatus (env : LoopEnv) (c : Consumer) : Result Consumer :=
  if nextStandbyMessageDeadline c <? loopNow env then
    match sendStatusErr env with
    | Some err => Fatal (Printf "SendStandbyStatusUpdate failed: %v" [LErr err])
    | None =>
        Done {| clientXLogPos := clientXLogPos c;
                nextStandbyMessageDeadline := afterStatus env + standbyMessageTimeout;
                walDataCh := walDataCh c;
                statusUpdates := statusUpdates c ++ [clientXLogPos c];
                consumerLog :=
                  consumerLog c ++
                  [Printf ("Sent Standby status message at %s" +:+ nl)
                     [LInt (clientXLogPos c)]] |}
    end
  else Done c.

(** Lines 180-210: the switch on the first byte of the copy data. *)
Definition onCopyData (data : list byte) (c : Consumer) : Result Consumer :=
  match data with
  | [] => Panic "index out of range"
  | tag :: payload =>
      if Byte.eqb tag PrimaryKeepaliveMessageByteID then
        match ParsePrimaryKeepaliveMessage payload with
        | inr err => Fatal (Printf "ParsePrimaryKeepaliveMessage failed: %v" [LErr err])
        | inl pkm =>
            let pos :=
              if clientXLogPos c <? ServerWALEnd pkm then ServerWALEnd pkm
              else clientXLogPos c in
            let deadline :=
              if ReplyRequested pkm then zeroTime
              else nextStandbyMessageDeadline c in
            Done {| clientXLogPos := pos;
                    nextStandbyMessageDeadline := deadline;
                    walDataCh := walDataCh c;
                    statusUpdates := statusUpdates c;
                    consumerLog := consumerLog c |}
        end
      else if Byte.eqb tag XLogDataByteID then
        match ParseXLogData payload with
        | inr err => Fatal (Printf "ParseXLogData failed: %v" [LErr err])
        | inl xld =>
            let wal2json := bool_decide (outputPlugin = "wal2json") in
            let pos :=
              if clientXLogPos c <? WALStart xld then WALStart xld
              else clientXLogPos c in
            Done {| clientXLogPos := pos;
                    nextStandbyMessageDeadline := nextStandbyMessageDeadline c;
                    walDataCh :=
                      if wal2json then walDataCh c
                      else walDataCh c ++ [WALData xld];
                    statusUpdates := statusUpdates c;
                    consumerLog :=
                      if wal2json then
                        consumerLog c ++
                        [Printf ("wal2json data: %s" +:+ nl) [LBytes (WALData xld)]]
                      else consumerLog c |}
        end
      else Done c
  end.

(** One iteration of the loop of lines 150-211. *)
Definition mainLoopIteration (env : LoopEnv) (c : Consumer) : Result Consumer :=
  do c <- standbyStatus env c;
  match received env with
  | RecvTimeout => Done c
  | RecvFailed err => Fatal (Printf "ReceiveMessage failed: %v" [LErr err])
  | RecvMessage (ErrorResponse e) =>
      Fatal (Printf "received Postgres WAL error: %+v" [LErr e])
  | RecvMessage (OtherBackendMessage t) =>
      Done {| clientXLogPos := clientXLogPos c;
              nextStandbyMessageDeadline := nextStandbyMessageDeadline c;
              walDataCh := walDataCh c;
              statusUpdates := statusUpdates c;
              consumerLog :=
                consumerLog c ++
                [Printf ("Received unexpected message: %T" +:+ nl) [LStr t]] |}
  | RecvMessage (CopyData data) => onCopyData data c
  end.

(** The loop over a sequence of iterations, returning every state it
    went through; it stops at the first fatal error or panic. *)
Fixpoint mainLoop (envs : list LoopEnv) (c : Consumer) : list Consumer :=
  match envs with
  | [] => [c]
  | env :: rest =>
      match mainLoopIteration env c with
      | Done c' => c :: mainLoop rest c'
      | _ => [c]
      end
  end.

End Receive.

Arguments Consumer : clear implicits.

(** ** Reading the record of decode calls *)

Section Observed.
Context {repl : Pglogrepl}.

(** The commit message a decode call produced, if it produced one. *)
Definition commitOf (d : list byte * bool) : option CommitMessage :=
  match ParseV2 (fst d) (snd d) with
  | inl (MCommit m) => Some m
  | _ => None
  end.

(** The position and time of the last commit among the decode calls
    [ds], or [mark] when there is none. *)
Fixpoint lastCommitMark (ds : list (list byte * bool)) (mark : LSN * Time)
    : LSN * Time :=
  match ds with
  | [] => mark
  | d :: rest =>
      lastCommitMark rest
        match commitOf d with
        | Some m => (CommitLSN m, CommitTime m)
        | None => mark
        end
  end.

(** The streaming flag after the message of one decode call. *)
Definition toggle (flag : bool) (d : list byte * bool) : bool :=
  match ParseV2 (fst d) (snd d) with
  | inl (MStreamStartV2 _ _) => true
  | inl MStreamStopV2 => false
  | _ => flag
  end.

(** The streaming flag after the decode calls [ds], starting from the
    [false] of line 130. *)
Definition flagAfter (ds : list (list byte * bool)) : bool :=
  fold_left toggle ds false.

End Observed.

Section Invariant.
Context {Native : Type} {repl : Pglogrepl}.

(** What holds of every state the goroutine reaches from [initWorld]:
    the recorded commit is the last one decoded, the flag is the one left
    by the decoded stream messages, each decode call was given the flag
    left by the calls before it, and an active timer means that no
    begin is waiting for its commit. *)
Record Consistent (w : World Native) : Prop := {
  mark_ok :
    (commitLSN (applyCtx w), commitTime (applyCtx w))
    = lastCommitMark (decoded w) (0, zeroTime);
  flag_ok : inStream w = flagAfter (decoded w);
  flags_ok :
    forall k d f, decoded w !! k = Some (d, f) -> f = flagAfter (take k (decoded w));
  timer_ok :
    timer (applyCtx w) <> TimerIdle -> txnInProgress (applyCtx w) = false
}.

End Invariant.

(** The dynamic types that the switch of [processV2] names. *)
Definition recognizedV2 (m : Message) : bool :=
  match m with
  | MRelationV2 _ | MBegin _ _ _ | MCommit _ | MInsertV2 _
  | MUpdateV2 _ _ _ | MDeleteV2 _ _ | MTruncateV2 _ _
  | MTypeV2 | MOrigin | MLogicalDecodingV2 _ _ _
  | MStreamStartV2 _ _ | MStreamStopV2 | MStreamCommitV2 _ | MStreamAbortV2 _ => true
  | _ => false
  end.

(** ** Stand-ins for the external collaborators, used on concrete inputs *)

Definition dquote : string := String (ascii_of_nat 34) EmptyString.

(** A part with its NUL bytes dropped and its double quotes doubled. *)
Fixpoint escapeIdentifier (s : string) : string :=
  match s with
  | EmptyString => EmptyString
  | String c rest =>
      if Ascii.eqb c (ascii_of_nat 0) then escapeIdentifier rest
      else if Ascii.eqb c (ascii_of_nat 34) then
        String c (String c (escapeIdentifier rest))
      else String c (escapeIdentifier rest)
  end.

(** Each escaped part between double quotes, parts joined by a dot. *)
Definition quoteIdentifier (parts : list string) : string :=
  String.concat "." (map (fun s => dquote +:+ escapeIdentifier s +:+ dquote) parts).

Definition quotingPgx : Pgx := {| Sanitize := quoteIdentifier |}.

(** A decoder reading a one-byte buffer as an index into a table of
    messages, whatever the streaming flag; it panics on an empty buffer. *)
Definition tableParse (tbl : list Message) (data : list byte)
    : Message + ParseFailure :=
  match data with
  | [] => inr (Panicked "index out of range")
  | [b] =>
      match tbl !! Byte.to_nat b with
      | Some m => inl m
      | None => inr (ReturnedError "message type not supported")
      end
  | _ => inr (ReturnedError "malformed buffer")
  end.

(** Keepalive payload: position byte, reply-requested byte. *)
Definition keepaliveOfBytes (payload : list byte) : PrimaryKeepaliveMessage + error :=
  match payload with
  | [p; r] =>
      inl {| ServerWALEnd := Z.of_nat (Byte.to_nat p); ServerTime := 0;
             ReplyRequested := negb (Byte.eqb r "000"%byte) |}
  | _ => inr "keepalive: wrong length"
  end.

(** Data payload: position byte, then the change buffer. *)
Definition xlogDataOfBytes (payload : list byte) : XLogData + error :=
  match payload with
  | p :: rest =>
      inl {| WALStart := Z.of_nat (Byte.to_nat p); xldServerWALEnd := 0;
             xldServerTime := 0; WALData := rest |}
  | [] => inr "XLogData: too short"
  end.

Definition tableRepl (tbl : list Message) : Pglogrepl :=
  {| Parse := tableParse tbl;
     ParseV2 := fun data _ => tableParse tbl data;
     PrimaryKeepaliveMessageByteID := "k"%byte;
     XLogDataByteID := "w"%byte;
     ParsePrimaryKeepaliveMessage := keepaliveOfBytes;
     ParseXLogData := xlogDataOfBytes |}.

(** A codec accepting exactly one decimal digit. *)
Definition digitCodec : Codec Z :=
  {| DecodeValue := fun _ _ src =>
       match src with
       | [b] =>
           let n := Z.of_nat (Byte.to_nat b) in
           if (48 <=? n) && (n <=? 57) then inl (AnyNative (n - 48))
           else inr "invalid syntax"
       | _ => inr "invalid syntax"
       end |}.

Definition int4OID : Z := 23.
Definition textOID : Z := 25.

(** A registry knowing only [int4]. *)
Definition digitMap : gmap Z (pgType Z) :=
  {[ int4OID := {| TypeName := "int4"; OID := int4OID; TypeCodec := digitCodec |} ]}.

(** Relation 1, [public.t(id int4, big text)]. *)
Definition relT : RelationMessageV2 :=
  {| RelationV2 :=
       {| RelationID := 1; Namespace := "public"; RelationName := "t";
          ReplicaIdentity := 100;
          Columns := [ {| Flags := 1; Name := "id"; DataType := int4OID; TypeModifier := -1 |};
                       {| Flags := 0; Name := "big"; DataType := textOID; TypeModifier := -1 |} ] |};
     RelationXid := 0 |}.

Definition textColumn (s : string) : TupleDataColumn :=
  {| colDataType := "t"%byte; Data := list_byte_of_string s |}.
Definition nullColumn : TupleDataColumn :=
  {| colDataType := "n"%byte; Data := [] |}.
Definition unchangedToastColumn : TupleDataColumn :=
  {| colDataType := "u"%byte; Data := [] |}.

Definition insertInto (rel : Z) (xid : Z) (cols : list TupleDataColumn) : InsertMessageV2 :=
  {| InsertV2 := {| InsertRelationID := rel; Tuple := {| TupleColumns := cols |} |};
     InsertXid := xid |}.

(** A clock reading [t] throughout, with [SendBatch] succeeding. *)
Definition quietEnv (t : Time) : Env :=
  {| now := t; before := t; afterSend := t; flushedAt := t; sendBatchErr := None |}.

(** The buffers handed to the goroutine, in order. *)
Definition buffersOf (evs : list (Event * Env)) : list (list byte) :=
  omap (fun e => match fst e with WalDataCh d => Some d | _ => None end) evs.

(** A streamed transaction 7 on relation 1: its first segment defines
    the relation, carries one insert and is closed by a stream stop; no
    commit is decoded. *)
Definition streamedTable : list Message :=
  [ MStreamStartV2 7 1;
    MRelationV2 {| RelationV2 := RelationV2 relT; RelationXid := 7 |};
    MInsertV2 (insertInto 1 7 [textColumn "1"; nullColumn]);
    MStreamStopV2 ].

(** The four buffers of [streamedTable], then the timer started at line
    132 expiring two seconds after start-up and its tick being received. *)
Definition streamedTrace : list (Event * Env) :=
  [ (WalDataCh ["000"%byte], quietEnv 0);
    (WalDataCh ["001"%byte], quietEnv 0);
    (WalDataCh ["002"%byte], quietEnv 0);
    (WalDataCh ["003"%byte], quietEnv 0);
    (TimerExpires, quietEnv (2 * Second));
    (TimerC, quietEnv (2 * Second)) ].

(** An update of relation 5, which no relation message has defined. *)
Definition updateOnlyTable : list Message :=
  [ MUpdateV2 5 {| TupleColumns := [textColumn "1"] |} 3 ].

(** Relation 1 has two columns; the insert brings three, the first of
    which is not a digit. *)
Definition wideTable : list Message :=
  [ MRelationV2 relT;
    MInsertV2 (insertInto 1 0 [textColumn "x"; nullColumn; nullColumn]) ].

Definition wideTrace : list (Event * Env) :=
  [ (WalDataCh ["000"%byte], quietEnv 0);
    (WalDataCh ["001"%byte], quietEnv 0) ].

(** A consumer at position 40 whose deadline lies ahead. *)
Definition consumerAt40 : Consumer Z :=
  {| clientXLogPos := 40; nextStandbyMessageDeadline := 10 * Second;
     walDataCh := []; statusUpdates := []; consumerLog := [] |}.

(** Receiving one copy-data message at clock reading 0. *)
Definition receiving (data : list byte) : LoopEnv :=
  {| loopNow := 0; sendStatusErr := None; afterStatus := 0;
     received := RecvMessage (CopyData data) |}.

(** ** Start-up (main.go 20-40, 121-123) *)

(** What [row.Scan] of line 25 returns: a row was scanned, [pgx.ErrNoRows],
    or any other error. *)
Inductive ScanOutcome :=
  | ScanRow
  | ScanErrNoRows
  | ScanOtherError (err : error).

(** What [createReplicationOrigin] reads from the target connection: the
    outcome of the scan and the errors of the two [Exec] calls. *)
Record OriginEnv := {
  scanResult : ScanOutcome;
  createResult : option error;
  setupResult : option error
}.

Definition selectOriginQuery : string :=
  "SELECT * FROM pg_replication_origin WHERE roname = $1".
Definition createOriginQuery : string :=
  "SELECT pg_replication_origin_create($1)".
Definition setupOriginQuery : string :=
  "SELECT pg_replication_origin_session_setup($1)".

(** [createReplicationOrigin] (20-40): the error returned and the
    statements sent on the connection, each with its argument, in order. *)
Definition createReplicationOrigin (env : OriginEnv) (name : string)
    : option error * list (string * string) :=
  let sent := [(selectOriginQuery, name)] in
  match scanResult env with
  | ScanErrNoRows =>
      match createResult env with
      | Some err => (Some err, sent ++ [(createOriginQuery, name)])
      | None =>
          (setupResult env,
           sent ++ [(createOriginQuery, name); (setupOriginQuery, name)])
      end
  | _ => (setupResult env, sent ++ [(setupOriginQuery, name)])
  end.

(** The loop variables as lines 121-123 set them, [xlogpos] being the
    position reported by [IdentifySystem] and [started] the clock. *)
Definition initConsumer {Native : Type} (xlogpos : LSN) (started : Time)
    : Consumer Native :=
  {| clientXLogPos := xlogpos;
     nextStandbyMessageDeadline := started + standbyMessageTimeout;
     walDataCh := [];
     statusUpdates := [];
     consumerLog := [] |}.

(** ** Further readings of the state *)

(** The value that lines 302-313 bind for one tuple column, paired with
    the relation column of the same index; none for an unchanged-toast
    column and for a kind the switch has no case for. *)
Definition boundValue {Native : Type} (typeMap : gmap Z (pgType Native))
    (cr : TupleDataColumn * RelationMessageColumn) : option (any Native) :=
  if Byte.eqb (colDataType (fst cr)) "n" then Some AnyNil
  else if Byte.eqb (colDataType (fst cr)) "u" then None
  else if Byte.eqb (colDataType (fst cr)) "t" then
    match decodeTextColumnData typeMap (Data (fst cr)) (DataType (snd cr)) with
    | inl val => Some val
    | inr _ => None
    end
  else None.

(** Every query queued so far, in order: those of the groups the target
    store has executed, each group without its closing origin write, then
    the pending batch. *)
Definition delivered {Native : Type} (a : applyContext Native)
    : list (QueuedQuery Native) :=
  concat (map (removelast (A := QueuedQuery Native)) (conn a)) ++ batch a.

(** The text of the insert for a tuple of [n] columns: the names of the
    relation's first [n] columns and the placeholders [$1] to [$n], both
    separated by a comma and a space. *)
Definition insertText {pgx : Pgx} (rel : RelationMessage) (n : nat) : string :=
  "INSERT INTO " +:+ Sanitize [Namespace rel; RelationName rel] +:+ "("
  +:+ String.concat ", " (map (fun rc => Sanitize [Name rc]) (take n (Columns rel)))
  +:+ ") overriding system value VALUES("
  +:+ String.concat ", " (map (fun i => "$" +:+ itoa i) (seq 1 n))
  +:+ ")".

(** Every text column of the tuple that has a relation column at its
    index decodes without error. *)
Definition textColumnsDecode {Native : Type} (typeMap : gmap Z (pgType Native))
    (rel : RelationMessage) (cols : list TupleDataColumn) : Prop :=
  forall i col rc,
    cols !! i = Some col -> Columns rel !! i = Some rc ->
    colDataType col = "t"%byte ->
    exists v, decodeTextColumnData typeMap (Data col) (DataType rc) = inl v.

Section ObservedMore.
Context {repl : Pglogrepl}.

(** Whether a decode call produced a version-2 insert. *)
Definition isInsertV2 (d : list byte * bool) : bool :=
  match ParseV2 (fst d) (snd d) with
  | inl (MInsertV2 _) => true
  | _ => false
  end.

(** The version-2 relation cache after one decode call. *)
Definition cacheStep (cache : gmap Z RelationMessageV2) (d : list byte * bool)
    : gmap Z RelationMessageV2 :=
  match ParseV2 (fst d) (snd d) with
  | inl (MRelationV2 m) => <[RelationID (RelationV2 m) := m]> cache
  | _ => cache
  end.

(** The buffers one iteration of the receive loop puts on the channel:
    the change buffer of a data message, nothing otherwise. *)
Definition forwarded (env : LoopEnv) : list (list byte) :=
  match received env with
  | RecvMessage (CopyData (tag :: payload)) =>
      if Byte.eqb tag PrimaryKeepaliveMessageByteID then []
      else if Byte.eqb tag XLogDataByteID then
        match ParseXLogData payload with
        | inl xld => [WALData xld]
        | inr _ => []
        end
      else []
  | _ => []
  end.

End ObservedMore.

(** A begin followed by nothing. *)
Definition beginTable : list Message := [ MBegin 0 0 3 ].

Definition beginTrace : list (Event * Env) :=
  [ (WalDataCh ["000"%byte], quietEnv 0) ].

(** Relation 1, then a transaction with one insert committed at position
    100 one second after start-up. *)
Definition committedTable : list Message :=
  [ MRelationV2 relT;
    MBegin 100 50 3;
    MInsertV2 (insertInto 1 0 [textColumn "1"; nullColumn]);
    MCommit {| CommitFlags := 0; CommitLSN := 100; TransactionEndLSN := 101;
               CommitTime := 50 |} ].

Definition committedTrace : list (Event * Env) :=
  [ (WalDataCh ["000"%byte], quietEnv 0);
    (WalDataCh ["001"%byte], quietEnv 0);
    (WalDataCh ["002"%byte], quietEnv 0);
    (WalDataCh ["003"%byte], quietEnv Second) ].

(** A keepalive asking for a reply, then a data message at position 50
    carrying the buffer [[1]], received in two iterations. *)
Definition replyThenData : list LoopEnv :=
  [ receiving ["k"%byte; "007"%byte; "001"%byte];
    {| loopNow := 5; sendStatusErr := None; afterStatus := 6;
       received := RecvMessage (CopyData ["w"%byte; "050"%byte; "001"%byte]) |} ].

(** * Properties *)

Ltac done_inv :=
  repeat match goal with
  | H : Done _ = Done _ |- _ => inversion H; subst; clear H
  | H : Fatal _ = Done _ |- _ => discriminate H
  | H : Panic _ = Done _ |- _ => discriminate H
  end.

Lemma obind_Done {L A B} (m : Outcome L A) (k : A -> Outcome L B) (b : B) :
  obind m k = Done b -> exists a, m = Done a /\ k a = Done b.
Proof. destruct m; cbn; intros H; try discriminate. eauto. Qed.

(** ** Column decoder *)

Section ColumnDecoder.
Context {Native : Type}.

(** C8. A text column whose type OID has no entry in the registry decodes
    to its bytes as a string, unchanged and without error; with an entry,
    the result is what that type's codec returns for the text format. *)
Theorem decodeTextColumnData_registry
    (mi : gmap Z (pgType Native)) (data : list byte) (dataType : Z) :
  (mi !! dataType = None ->
     decodeTextColumnData mi data dataType = inl (AnyString (string_of_list_byte data))
     /\ list_byte_of_string (string_of_list_byte data) = data)
  /\ (forall dt, mi !! dataType = Some dt ->
        decodeTextColumnData mi data dataType
        = DecodeValue (TypeCodec dt) dataType TextFormatCode data).
Proof.
  unfold decodeTextColumnData. split.
  - intros ->. split; [reflexivity | apply list_byte_of_string_of_list_byte].
  - intros dt ->. reflexivity.
Qed.

End ColumnDecoder.

Lemma decodeTextColumnData_registry_witness :
  decodeTextColumnData digitMap (list_byte_of_string "7") textOID = inl (AnyString "7")
  /\ decodeTextColumnData digitMap (list_byte_of_string "7") int4OID = inl (AnyNative 7).
Proof.
  split.
  - apply (decodeTextColumnData_registry digitMap (list_byte_of_string "7") textOID).
    reflexivity.
  - rewrite (proj2 (decodeTextColumnData_registry digitMap (list_byte_of_string "7") int4OID)
               {| TypeName := "int4"; OID := int4OID; TypeCodec := digitCodec |});
      reflexivity.
Defined.

(** ** Flush and commit *)

Lemma Since_threshold (now t : Time) :
  (2 * Second <? Since now t) = (2 * Second <? now - t).
Proof.
  unfold Since, Sub, maxDuration, minDuration, Second.
  change (2 ^ 63) with 9223372036854775808.
  repeat case_match; lia.
Qed.

Section Batcher.
Context {Native : Type}.

#[local] Abbreviation applyContext := (applyContext Native).

Lemma flush_empty (env : Env) (a : applyContext) :
  batch a = [] -> flush env a = Done (a, []).
Proof. unfold flush. intros ->. reflexivity. Qed.

Lemma flush_nonempty (env : Env) (a : applyContext) :
  batch a <> [] -> sendBatchErr env = None ->
  flush env a
  = Done (flushed env (batch a ++ [originAck (commitLSN a) (commitTime a)]) a,
          [Printf "commit took %v queue %d"
             [LDuration (Since (afterSend env) (before env));
              LInt (Z.of_nat (length (batch a ++ [originAck (commitLSN a) (commitTime a)])))]]).
Proof.
  unfold flush. intros Hne ->.
  destruct (batch a) as [|q qs]; [contradiction | reflexivity].
Qed.

End Batcher.

(** ** The apply goroutine *)

Lemma v2_true : v2 = true.
Proof. reflexivity. Qed.

Section Goroutine.
Context {Native : Type} {pgx : Pgx} {repl : Pglogrepl}.

#[local] Abbreviation World := (World Native).

(** A call of [processV2] that returns has decoded a message and
    switched on it. *)
Lemma processV2_Done env typeMap walData (w w' : World) :
  processV2 env typeMap walData w = Done w' ->
  exists m, ParseV2 walData (inStream w) = inl m
            /\ switchV2 env typeMap m (noteDecode walData w) = Done w'.
Proof.
  unfold processV2.
  destruct (ParseV2 walData (inStream w)) as [m|[err|reason]]; try discriminate.
  eauto.
Qed.

(** An expiring timer touches the two timer fields only, and leaves the
    timer idle. *)
Lemma applyStep_expires typeMap env (w w' : World) :
  applyStep typeMap TimerExpires env w = Done w' ->
  exists a', w' = withApplyCtx a' w
    /\ conn a' = conn (applyCtx w) /\ batch a' = batch (applyCtx w)
    /\ lastCommitTime a' = lastCommitTime (applyCtx w)
    /\ commitLSN a' = commitLSN (applyCtx w)
    /\ commitTime a' = commitTime (applyCtx w)
    /\ txnInProgress a' = txnInProgress (applyCtx w)
    /\ timer a' = TimerIdle.
Proof.
  cbn. destruct (timer (applyCtx w)) eqn:Ht; intros Hs; injection Hs as <-.
  - exists (applyCtx w). destruct w; cbn in *. auto 10.
  - eexists. split; [reflexivity|]. cbn. auto 10.
Qed.

(** A timer turn either finds no tick and does nothing, or runs [flush]
    on the context with the tick taken out. *)
Lemma applyStep_timer_turn typeMap env (w w' : World) :
  applyStep typeMap TimerC env w = Done w' ->
  (timerC (applyCtx w) = false /\ w' = w)
  \/ (timerC (applyCtx w) = true
      /\ exists a' l, flush env (withTimerC false (applyCtx w)) = Done (a', l)
                      /\ w' = logPrintf l (withApplyCtx a' w)).
Proof.
  cbn. destruct (timerC (applyCtx w)); intros Hs.
  - right. split; [reflexivity|].
    apply obind_Done in Hs as ([a' l] & Hf & Hs). done_inv. eauto.
  - left. injection Hs as <-. auto.
Qed.

Lemma lastCommitMark_snoc (ds : list (list byte * bool)) d mark :
  lastCommitMark (ds ++ [d]) mark
  = match commitOf d with
    | Some m => (CommitLSN m, CommitTime m)
    | None => lastCommitMark ds mark
    end.
Proof.
  revert mark. induction ds as [|x ds IH]; intros mark; cbn.
  - reflexivity.
  - rewrite IH. reflexivity.
Qed.

Lemma flagAfter_snoc (ds : list (list byte * bool)) d :
  flagAfter (ds ++ [d]) = toggle (flagAfter ds) d.
Proof. unfold flagAfter. rewrite fold_left_app. reflexivity. Qed.

(** What the switch does to the fields the invariant reads. *)
Lemma switchV2_fields env typeMap (m : Message) (w w' : World) :
  switchV2 env typeMap m w = Done w' ->
  decoded w' = decoded w
  /\ inStream w' = match m with
                   | MStreamStartV2 _ _ => true
                   | MStreamStopV2 => false
                   | _ => inStream w
                   end
  /\ (commitLSN (applyCtx w'), commitTime (applyCtx w'))
     = match m with
       | MCommit c => (CommitLSN c, CommitTime c)
       | _ => (commitLSN (applyCtx w), commitTime (applyCtx w))
       end
  /\ ((timer (applyCtx w) <> TimerIdle -> txnInProgress (applyCtx w) = false) ->
      timer (applyCtx w') <> TimerIdle -> txnInProgress (applyCtx w') = false).
Proof.
  destruct m; cbn; intros Hs; done_inv; cbn; try (repeat split; tauto).
  - (* commit *)
    unfold commit, flush in Hs. cbn in Hs.
    repeat case_match; cbn in Hs; done_inv; cbn; repeat split; auto.
  - (* insert *)
    case_match; [|discriminate].
    apply obind_Done in Hs as (qv & _ & Hs). done_inv. cbn. repeat split; tauto.
Qed.

Lemma processV2_fields env typeMap walData (w w' : World) :
  processV2 env typeMap walData w = Done w' ->
  exists m, ParseV2 walData (inStream w) = inl m
  /\ decoded w' = decoded w ++ [(walData, inStream w)]
  /\ inStream w' = toggle (inStream w) (walData, inStream w)
  /\ (commitLSN (applyCtx w'), commitTime (applyCtx w'))
     = match m with
       | MCommit c => (CommitLSN c, CommitTime c)
       | _ => (commitLSN (applyCtx w), commitTime (applyCtx w))
       end
  /\ ((timer (applyCtx w) <> TimerIdle -> txnInProgress (applyCtx w) = false) ->
      timer (applyCtx w') <> TimerIdle -> txnInProgress (applyCtx w') = false).
Proof.
  intros Hs. apply processV2_Done in Hs as (m & Hp & Hs).
  apply switchV2_fields in Hs as (Hd & Hf & Hc & Ht).
  exists m. cbn in *. repeat split; auto.
  rewrite Hf. unfold toggle. cbn. rewrite Hp. destruct m; reflexivity.
Qed.

Lemma applyStep_Consistent typeMap ev env (w w' : World) :
  applyStep typeMap ev env w = Done w' -> Consistent w -> Consistent w'.
Proof.
  intros Hs [Hm Hf Hfs Ht]. destruct ev as [|walData|].
  - apply applyStep_timer_turn in Hs as [[_ ->]|(_ & a' & l & Hfl & ->)];
      [split; auto|].
    unfold flush in Hfl. cbn in Hfl.
    repeat case_match; cbn in Hfl; done_inv; split; cbn; auto.
  - cbn in Hs. rewrite v2_true in Hs.
    apply processV2_fields in Hs as (m & Hp & Hd & Hi & Hc & Ht').
    split.
    + rewrite Hd, lastCommitMark_snoc, Hc. unfold commitOf. cbn. rewrite Hp.
      destruct m; auto.
    + rewrite Hd, flagAfter_snoc, Hi, Hf. reflexivity.
    + intros k d f. rewrite Hd. intros Hk.
      apply lookup_app_Some in Hk as [Hk|[Hlen Hk]].
      * rewrite take_app_le by (apply lookup_lt_Some in Hk; lia). eauto.
      * destruct (k - length (decoded w))%nat as [|n] eqn:Hn; [|destruct n; discriminate].
        cbn in Hk. injection Hk as <- <-.
        replace k with (length (decoded w)) by lia.
        rewrite take_app_length. exact Hf.
    + auto.
  - apply applyStep_expires in Hs as (a' & -> & _ & _ & _ & Hl & Hc & _ & Hidle).
    split; cbn; auto.
    + rewrite Hl, Hc. exact Hm.
    + intros Hne. rewrite Hidle in Hne. contradiction.
Qed.

Lemma initWorld_Consistent startup : Consistent (initWorld (Native := Native) startup).
Proof. split; cbn; auto. intros k d f Hk. rewrite lookup_nil in Hk. discriminate. Qed.

Lemma applyLoop_Consistent typeMap evs (w w' : World) :
  applyLoop typeMap evs w = Done w' -> Consistent w -> Consistent w'.
Proof.
  revert w. induction evs as [|[ev env] evs IH]; intros w; cbn.
  - intros Hs. done_inv. auto.
  - destruct (applyStep typeMap ev env w) as [w1| |] eqn:Hs1; cbn; try discriminate.
    intros Hs Hw. eapply IH; eauto using applyStep_Consistent.
Qed.

End Goroutine.

Section Flushes.
Context {Native : Type} {pgx : Pgx} {repl : Pglogrepl}.

#[local] Abbreviation World := (World Native).

(** The only message that makes the target store execute something is a
    commit whose immediate flush finds a non-empty batch. *)
Lemma switchV2_conn env typeMap (m : Message) (w w' : World) :
  switchV2 env typeMap m w = Done w' ->
  conn (applyCtx w') = conn (applyCtx w)
  \/ exists c, m = MCommit c /\ batch (applyCtx w) <> []
     /\ conn (applyCtx w')
        = conn (applyCtx w)
          ++ [batch (applyCtx w) ++ [originAck (CommitLSN c) (CommitTime c)]].
Proof.
  destruct m; cbn; intros Hs; done_inv; cbn; auto.
  - unfold commit, flush in Hs. cbn in Hs.
    repeat case_match; cbn in Hs; done_inv; cbn; auto.
    right. eexists. split; [reflexivity|]. split; [|reflexivity].
    destruct (batch (applyCtx w)); [discriminate|congruence].
  - case_match; [|discriminate].
    apply obind_Done in Hs as (qv & _ & Hs). done_inv. cbn. auto.
Qed.

(** [lastCommitTime] is written by a flush that sent its batch, and by
    nothing else. *)
Lemma lastCommitTime_set_by_flush typeMap ev env (w w' : World) :
  applyStep typeMap ev env w = Done w' ->
  (conn (applyCtx w') = conn (applyCtx w)
   /\ lastCommitTime (applyCtx w') = lastCommitTime (applyCtx w))
  \/ (conn (applyCtx w') <> conn (applyCtx w)
      /\ lastCommitTime (applyCtx w') = flushedAt env).
Proof.
  assert (forall (l : list (list (QueuedQuery Native))) x, l ++ [x] <> l) as Hneq.
  { intros l x Heq. apply (f_equal length) in Heq.
    rewrite length_app in Heq. cbn in Heq. lia. }
  intros Hs. destruct ev as [|walData|].
  - apply applyStep_timer_turn in Hs as [[_ ->]|(_ & a' & l & Hfl & ->)]; [auto|].
    unfold flush in Hfl. cbn in Hfl.
    repeat case_match; cbn in Hfl; done_inv; cbn; auto.
  - cbn in Hs. rewrite v2_true in Hs.
    apply processV2_Done in Hs as (m & _ & Hs).
    destruct m; cbn in Hs; done_inv; cbn; auto.
    + unfold commit, flush in Hs. cbn in Hs.
      repeat case_match; cbn in Hs; done_inv; cbn; auto.
    + case_match; [|discriminate].
      apply obind_Done in Hs as (qv & _ & Hs). done_inv. cbn. auto.
  - apply applyStep_expires in Hs as (a' & -> & Hc & _ & Hl & _). cbn. auto.
Qed.

(** C5. [commit] records the position and time and clears the
    open-transaction flag.  When more than two seconds have passed since
    [lastCommitTime] it flushes at once: with an empty batch nothing is
    sent; with a non-empty batch the target store executes the batch
    followed by the origin write of this commit, the batch is emptied
    and [lastCommitTime] becomes the clock reading after the send, or
    the process ends if [SendBatch] fails; the timer is not touched.
    Otherwise nothing is sent and the timer is restarted for two
    seconds.  [lastCommitTime] itself changes only when a flush has sent
    a batch. *)
Theorem commit_flush_policy (env : Env) (lsn : LSN) (ts : Time)
    (a : applyContext Native) :
  (2 * Second < now env - lastCommitTime a ->
     (batch a = [] ->
        commit env lsn ts a
        = Done ({| conn := conn a; batch := [];
                   lastCommitTime := lastCommitTime a;
                   commitLSN := lsn; commitTime := ts; txnInProgress := false;
                   timer := timer a; timerC := timerC a |}, []))
     /\ (batch a <> [] -> sendBatchErr env = None ->
           exists l,
             commit env lsn ts a
             = Done ({| conn :=
                          conn a
                          ++ [batch a
                              ++ [ {| SQL := "select pg_replication_origin_xact_setup($1, $2)";
                                      Arguments := [AnyLSN lsn; AnyTime ts] |} ]];
                        batch := [];
                        lastCommitTime := flushedAt env;
                        commitLSN := lsn; commitTime := ts; txnInProgress := false;
                        timer := timer a; timerC := timerC a |}, l))
     /\ (batch a <> [] -> forall err, sendBatchErr env = Some err ->
           commit env lsn ts a
           = Fatal (Printf "failed to apply batch: %v" [LErr err])))
  /\ (now env - lastCommitTime a <= 2 * Second ->
        commit env lsn ts a
        = Done ({| conn := conn a; batch := batch a;
                   lastCommitTime := lastCommitTime a;
                   commitLSN := lsn; commitTime := ts; txnInProgress := false;
                   timer := TimerActive (2 * Second); timerC := timerC a |}, []))
  /\ (forall typeMap ev env' (w w' : World),
        applyStep typeMap ev env' w = Done w' ->
        (conn (applyCtx w') = conn (applyCtx w)
         /\ lastCommitTime (applyCtx w') = lastCommitTime (applyCtx w))
        \/ (conn (applyCtx w') <> conn (applyCtx w)
            /\ lastCommitTime (applyCtx w') = flushedAt env')).
Proof.
  split; [|split].
  - intros Hlt. apply Z.ltb_lt in Hlt.
    unfold commit. cbn [lastCommitTime recordCommit]. rewrite Since_threshold, Hlt.
    unfold flush. cbn. split; [|split].
    + intros Hb. unfold recordCommit. rewrite Hb. reflexivity.
    + intros Hne ->. destruct (batch a) as [|q qs]; [contradiction|]. cbn.
      eexists. reflexivity.
    + intros Hne err ->. destruct (batch a) as [|q qs]; [contradiction|]. reflexivity.
  - intros Hle. apply Z.ltb_ge in Hle.
    unfold commit. cbn [lastCommitTime recordCommit]. rewrite Since_threshold, Hle.
    reflexivity.
  - intros typeMap ev env' w w'. apply lastCommitTime_set_by_flush.
Qed.

End Flushes.

Lemma commit_flush_policy_witness :
  (exists l,
     commit (quietEnv (3 * Second)) 100 50
       (queue "q" [] (begin (applyCtx (initWorld (Native := Z) 0))))
     = Done ({| conn := [[ {| SQL := "q"; Arguments := [] |};
                           {| SQL := "select pg_replication_origin_xact_setup($1, $2)";
                              Arguments := [AnyLSN 100; AnyTime 50] |} ]];
                batch := []; lastCommitTime := 3 * Second;
                commitLSN := 100; commitTime := 50; txnInProgress := false;
                timer := TimerIdle; timerC := false |}, l))
  /\ commit (quietEnv Second) 100 50
       (queue "q" [] (begin (applyCtx (initWorld (Native := Z) 0))))
     = Done ({| conn := []; batch := [ {| SQL := "q"; Arguments := [] |} ];
                lastCommitTime := 0;
                commitLSN := 100; commitTime := 50; txnInProgress := false;
                timer := TimerActive (2 * Second); timerC := false |}, []).
Proof.
  split.
  - refine (proj1 (proj2 (proj1 (commit_flush_policy (pgx := quotingPgx)
                                   (repl := tableRepl []) (quietEnv (3 * Second)) 100 50
                                   (queue "q" [] (begin (applyCtx (initWorld (Native := Z) 0)))))
                            _)) _ _).
    + vm_compute. reflexivity.
    + discriminate.
    + reflexivity.
  - refine (proj1 (proj2 (commit_flush_policy (pgx := quotingPgx)
                            (repl := tableRepl []) (quietEnv Second) 100 50
                            (queue "q" [] (begin (applyCtx (initWorld (Native := Z) 0))))))
              _).
    vm_compute. discriminate.
Defined.


Section Streaming.
Context {Native : Type} {pgx : Pgx} {repl : Pglogrepl}.

#[local] Abbreviation World := (World Native).

Lemma applyStep_buffers typeMap ev env (w w' : World) :
  applyStep typeMap ev env w = Done w' ->
  map fst (decoded w') = map fst (decoded w) ++ buffersOf [(ev, env)].
Proof.
  intros Hs. destruct ev as [|walData|].
  - unfold buffersOf. cbn [omap list_omap fst]. rewrite app_nil_r.
    apply applyStep_timer_turn in Hs as [[_ ->]|(_ & a' & l & _ & ->)]; reflexivity.
  - cbn in Hs. rewrite v2_true in Hs.
    apply processV2_fields in Hs as (m & _ & Hd & _).
    rewrite Hd, map_app. reflexivity.
  - unfold buffersOf. cbn [omap list_omap fst]. rewrite app_nil_r.
    apply applyStep_expires in Hs as (a' & -> & _). reflexivity.
Qed.

Lemma applyLoop_buffers typeMap evs (w w' : World) :
  applyLoop typeMap evs w = Done w' ->
  map fst (decoded w') = map fst (decoded w) ++ buffersOf evs.
Proof.
  revert w. induction evs as [|[ev env] evs IH]; intros w; cbn.
  - intros Hs. done_inv. unfold buffersOf. cbn. rewrite app_nil_r. reflexivity.
  - intros Hs. apply obind_Done in Hs as (w1 & Hs1 & Hs).
    rewrite (IH _ Hs), (applyStep_buffers _ _ _ _ _ Hs1), <- app_assoc.
    f_equal. unfold buffersOf. cbn. destruct ev; reflexivity.
Qed.

(** C9. A decoded stream start leaves the flag true and a decoded stream
    stop leaves it false; every other message leaves it as it was.  Each
    call of [processV2] decodes its buffer with the flag as it then
    stands, so in a run from the initial state the buffers are decoded in
    the order received, the k-th with the flag left by the stream
    messages among the first k. *)
Theorem inStream_threaded typeMap evs startup (w : World) :
  applyLoop typeMap evs (initWorld startup) = Done w ->
  map fst (decoded w) = buffersOf evs
  /\ (forall k d f, decoded w !! k = Some (d, f) -> f = flagAfter (take k (decoded w)))
  /\ inStream w = flagAfter (decoded w)
  /\ (forall env walData w',
        processV2 env typeMap walData w = Done w' ->
        decoded w' = decoded w ++ [(walData, inStream w)]
        /\ exists m, ParseV2 walData (inStream w) = inl m
           /\ inStream w' = match m with
                            | MStreamStartV2 _ _ => true
                            | MStreamStopV2 => false
                            | _ => inStream w
                            end).
Proof.
  intros Hrun.
  pose proof (applyLoop_Consistent _ _ _ _ Hrun (initWorld_Consistent startup)) as Hw.
  split; [|split; [|split]].
  - apply applyLoop_buffers in Hrun. exact Hrun.
  - apply (flags_ok _ Hw).
  - apply (flag_ok _ Hw).
  - intros env walData w' Hs.
    apply processV2_fields in Hs as (m & Hp & Hd & Hi & _).
    split; [exact Hd|]. exists m. split; [exact Hp|].
    rewrite Hi. unfold toggle. cbn. rewrite Hp. destruct m; reflexivity.
Qed.

(** C7. A message whose dynamic type the switch of [processV2] does not
    name is logged and nothing else happens: the call returns normally
    with both relation caches, the apply context (pending batch
    included) and the streaming flag as they were. *)
Theorem unknown_variant_skipped env typeMap walData (w : World) (m : Message) :
  ParseV2 walData (inStream w) = inl m ->
  recognizedV2 m = false ->
  exists w',
    processV2 env typeMap walData w = Done w'
    /\ relations w' = relations w
    /\ relationsV2 w' = relationsV2 w
    /\ applyCtx w' = applyCtx w
    /\ inStream w' = inStream w
    /\ logged w'
       = logged w ++ [Printf "Unknown message type in pgoutput stream: %T"
                        [LStr (goTypeName m)]].
Proof.
  intros Hp Hm. unfold processV2. rewrite Hp.
  destruct m; try discriminate Hm; cbn; eexists; (split; [reflexivity|]);
    cbn; repeat split; reflexivity.
Qed.

End Streaming.

Lemma inStream_threaded_witness :
  match applyLoop (pgx := quotingPgx) (repl := tableRepl streamedTable)
          digitMap streamedTrace (initWorld 0) with
  | Done w =>
      map fst (decoded w) = buffersOf streamedTrace
      /\ inStream w = flagAfter (repl := tableRepl streamedTable) (decoded w)
  | _ => False
  end.
Proof.
  destruct (applyLoop (pgx := quotingPgx) (repl := tableRepl streamedTable)
              digitMap streamedTrace (initWorld 0)) as [w| |] eqn:E.
  - destruct (inStream_threaded _ _ _ _ E) as (H1 & _ & H3 & _). split; assumption.
  - vm_compute in E. discriminate E.
  - vm_compute in E. discriminate E.
Defined.

Lemma unknown_variant_skipped_witness :
  exists w',
    processV2 (pgx := quotingPgx) (repl := tableRepl [OtherMessage "*pglogrepl.FutureMessage"])
      (quietEnv 0) digitMap ["000"%byte] (initWorld 0) = Done w'
    /\ applyCtx w' = applyCtx (initWorld 0)
    /\ inStream w' = false.
Proof.
  destruct (unknown_variant_skipped (pgx := quotingPgx)
              (repl := tableRepl [OtherMessage "*pglogrepl.FutureMessage"])
              (quietEnv 0) digitMap ["000"%byte] (initWorld 0)
              (OtherMessage "*pglogrepl.FutureMessage") eq_refl eq_refl)
    as (w' & Hs & _ & _ & Ha & Hi & _).
  exists w'. split; [exact Hs|]. split; [exact Ha|exact Hi].
Defined.

(** ** Inserts carrying an unchanged-toast column, and streamed inserts *)

Lemma append_assoc (a b c : string) : (a +:+ b) +:+ c = a +:+ b +:+ c.
Proof.
  induction a as [|x a IH]; [reflexivity|].
  change (String x ((a +:+ b) +:+ c) = String x (a +:+ b +:+ c)).
  rewrite IH. reflexivity.
Qed.

Section InsertText.
Context {pgx : Pgx}.

(** C1 (the code departs from it). An insert into [public.t(id, big)]
    whose second column is an unchanged-toast column: the queued query
    names both columns and has two placeholders, while only the value of
    [id] is bound. *)
Theorem unchanged_toast_column_is_listed (env : Env) :
  exists w',
    switchV2 env digitMap
      (MInsertV2 (insertInto 1 0 [textColumn "1"; unchangedToastColumn]))
      (withRelationsV2 {[ 1 := relT ]} (initWorld 0)) = Done w'
    /\ batch (applyCtx w')
       = [ {| SQL :=
                "INSERT INTO " +:+ Sanitize ["public"; "t"]
                +:+ "(" +:+ Sanitize ["id"] +:+ ", " +:+ Sanitize ["big"]
                +:+ ") overriding system value VALUES($1, $2)";
              Arguments := [AnyNative 1] |} ].
Proof.
  eexists. split; [reflexivity|]. cbn.
  rewrite !append_assoc. reflexivity.
Qed.

End InsertText.

(** C2 (the code departs from it). With the decoder yielding a stream
    start for transaction 7, the relation, an insert of that transaction
    and a stream stop, the timer started at start-up then fires: the
    target store executes the insert followed by an origin write carrying
    the initial position, although no message of the stream is a commit. *)
Theorem streamed_insert_flushed_before_commit :
  Forall (fun m => match m with
                   | MCommit _ | MStreamCommitV2 _ => False
                   | _ => True
                   end) streamedTable
  /\ exists w q vals,
       applyLoop (pgx := quotingPgx) (repl := tableRepl streamedTable)
         digitMap streamedTrace (initWorld 0) = Done w
       /\ buildInsertV2 (pgx := quotingPgx) digitMap (RelationV2 relT)
            {| TupleColumns := [textColumn "1"; nullColumn] |} = Done (q, vals)
       /\ conn (applyCtx w)
          = [ [ {| SQL := q; Arguments := vals |}; originAck 0 zeroTime ] ]
       /\ batch (applyCtx w) = [].
Proof.
  split.
  - repeat constructor.
  - do 3 eexists. split; [vm_compute; reflexivity|].
    split; [vm_compute; reflexivity|]. split; reflexivity.
Qed.

(** C4 (the code departs from it). The same run as for C2: the one
    group the target store executes is the streamed insert followed by
    the origin write, and that origin write carries position 0 and the
    zero time, the initial values of the context, because none of the
    four messages decoded is a commit: it records no committed
    transaction of the batch. *)
Theorem origin_write_without_commit :
  exists w group,
    applyLoop (pgx := quotingPgx) (repl := tableRepl streamedTable)
      digitMap streamedTrace (initWorld 0) = Done w
    /\ conn (applyCtx w) = [group]
    /\ length group = 2%nat
    /\ last group
       = Some {| SQL := "select pg_replication_origin_xact_setup($1, $2)";
                 Arguments := [AnyLSN 0; AnyTime zeroTime] |}
    /\ length (decoded w) = 4%nat
    /\ Forall (fun d => commitOf (repl := tableRepl streamedTable) d = None) (decoded w).
Proof.
  do 2 eexists. split; [vm_compute; reflexivity|].
  split; [reflexivity|]. split; [reflexivity|]. split; [reflexivity|].
  split; [reflexivity|]. repeat constructor.
Qed.

(** The version-1 path on the same insert: the map of values has an
    entry for [id] and none for the unchanged-toast column [big]. *)
Lemma processV1_omits_unchanged_toast :
  insertValuesV1 digitMap (RelationV2 relT)
    [textColumn "1"; unchangedToastColumn] 0 ∅
  = Done ({[ "id" := AnyNative 1 ]} : gmap string (any Z)).
Proof. reflexivity. Qed.

(** ** Row events for a relation that is not cached *)

(** C6, as stated, fails on an update: relation 5 is not cached and the
    call returns normally. *)
Lemma update_unknown_relation_not_fatal :
  relationsV2 (initWorld (Native := Z) 0) !! 5 = None
  /\ exists w',
       processV2 (pgx := quotingPgx) (repl := tableRepl updateOnlyTable)
         (quietEnv 0) digitMap ["000"%byte] (initWorld 0) = Done w'.
Proof. split; [reflexivity|]. eexists. reflexivity. Qed.

Section UnknownRelation.
Context {Native : Type} {pgx : Pgx} {repl : Pglogrepl}.

#[local] Abbreviation World := (World Native).

(** C6, amended to inserts. An insert whose relation id has no entry in
    the cache is fatal in both protocol paths: the call ends in
    [log.Fatalf] before the tuple is looked at, and the goroutine runs
    nothing after it. *)
Theorem insert_unknown_relation_fatal env typeMap (w : World) :
  (forall m walData rest,
     ParseV2 walData (inStream w) = inl (MInsertV2 m) ->
     relationsV2 w !! InsertRelationID (InsertV2 m) = None ->
     processV2 env typeMap walData w
     = Fatal (Printf "unknown relation ID %d" [LInt (InsertRelationID (InsertV2 m))])
     /\ applyLoop typeMap ((WalDataCh walData, env) :: rest) w
        = Fatal (Printf "unknown relation ID %d" [LInt (InsertRelationID (InsertV2 m))]))
  /\ (forall m walData,
        Parse walData = inl (MInsert m) ->
        relations w !! InsertRelationID m = None ->
        processV1 typeMap walData w
        = Fatal (Printf "unknown relation ID %d" [LInt (InsertRelationID m)])).
Proof.
  split.
  - intros m walData rest Hp Hr.
    assert (processV2 env typeMap walData w
            = Fatal (Printf "unknown relation ID %d"
                       [LInt (InsertRelationID (InsertV2 m))])) as Hf.
    { unfold processV2. rewrite Hp. cbn. rewrite Hr. reflexivity. }
    split; [exact Hf|]. cbn. rewrite v2_true, Hf. reflexivity.
  - intros m walData Hp Hr. unfold processV1. rewrite Hp. cbn. rewrite Hr. reflexivity.
Qed.

End UnknownRelation.

Lemma insert_unknown_relation_fatal_witness :
  processV2 (pgx := quotingPgx)
    (repl := tableRepl [MInsertV2 (insertInto 9 0 [nullColumn])])
    (quietEnv 0) digitMap ["000"%byte] (initWorld 0)
  = Fatal (Printf "unknown relation ID %d" [LInt 9]).
Proof.
  apply (proj1 (proj1 (insert_unknown_relation_fatal (pgx := quotingPgx)
                         (repl := tableRepl [MInsertV2 (insertInto 9 0 [nullColumn])])
                         (quietEnv 0) digitMap (initWorld 0))
                  (insertInto 9 0 [nullColumn]) ["000"%byte] [] eq_refl eq_refl)).
Defined.

(** ** Tuples wider than the cached relation *)

(** C10, as stated, fails when a text column inside the relation's width
    does not decode: the process ends in [log.Fatalln] at that column and
    the index past the relation's columns is never used. *)
Lemma wide_tuple_decode_error_first :
  (length (Columns (RelationV2 relT)) < 3)%nat
  /\ applyLoop (pgx := quotingPgx) (repl := tableRepl wideTable)
       digitMap wideTrace (initWorld 0)
     = Fatal (Printf "error decoding column data: %v" [LErr "invalid syntax"]).
Proof. split; [cbn; lia|reflexivity]. Qed.

Section WideTuple.
Context {Native : Type} {pgx : Pgx} {repl : Pglogrepl}.

#[local] Abbreviation World := (World Native).

Lemma insertColumnsV2_wide typeMap rel cols :
  forall idx query (vals : list (any Native)),
  (idx <= length (Columns rel))%nat ->
  (length (Columns rel) < idx + length cols)%nat ->
  (insertColumnsV2 typeMap rel cols idx query vals = Panic "index out of range"
   \/ exists err,
        insertColumnsV2 typeMap rel cols idx query vals
        = Fatal (Printf "error decoding column data: %v" [LErr err]))
  /\ ((forall i col rc,
         cols !! i = Some col -> Columns rel !! (idx + i)%nat = Some rc ->
         colDataType col = "t"%byte ->
         exists v, decodeTextColumnData typeMap (Data col) (DataType rc) = inl v) ->
      insertColumnsV2 typeMap rel cols idx query vals = Panic "index out of range").
Proof.
  induction cols as [|col rest IH]; intros idx query vals Hle Hlt; cbn in *.
  - lia.
  - destruct (Columns rel !! idx) as [rc|] eqn:Hl; [|split; auto].
    apply lookup_lt_Some in Hl as Hidx.
    assert (forall q v,
      (forall i c r,
         (col :: rest) !! i = Some c -> Columns rel !! (idx + i)%nat = Some r ->
         colDataType c = "t"%byte ->
         exists x, decodeTextColumnData typeMap (Data c) (DataType r) = inl x) ->
      insertColumnsV2 typeMap rel rest (S idx) q v = Panic "index out of range") as Hrest.
    { intros q v Hdec. apply IH; [lia..|].
      intros i c r Hc Hr. apply (Hdec (S i)); [exact Hc|].
      replace (idx + S i)%nat with (S idx + i)%nat by lia. exact Hr. }
    destruct (Byte.eqb (colDataType col) "n"); [split; [apply IH; lia|apply Hrest]|].
    destruct (Byte.eqb (colDataType col) "u"); [split; [apply IH; lia|apply Hrest]|].
    destruct (Byte.eqb (colDataType col) "t") eqn:Ht; [|split; [apply IH; lia|apply Hrest]].
    destruct (decodeTextColumnData typeMap (Data col) (DataType rc)) as [v|err] eqn:Hd.
    + split; [apply IH; lia|apply Hrest].
    + split; [right; eauto|].
      intros Hdec. destruct (Hdec 0%nat col rc) as [v Hv]; [reflexivity| |  |].
      * rewrite Nat.add_0_r. exact Hl.
      * apply Byte.byte_dec_bl. exact Ht.
      * congruence.
Qed.

Lemma insertValuesV1_wide typeMap rel cols :
  forall idx (values : gmap string (any Native)),
  (idx <= length (Columns rel))%nat ->
  (length (Columns rel) < idx + length cols)%nat ->
  (insertValuesV1 typeMap rel cols idx values = Panic "index out of range"
   \/ exists err,
        insertValuesV1 typeMap rel cols idx values
        = Fatal (Printf "error decoding column data: %v" [LErr err]))
  /\ ((forall i col rc,
         cols !! i = Some col -> Columns rel !! (idx + i)%nat = Some rc ->
         colDataType col = "t"%byte ->
         exists v, decodeTextColumnData typeMap (Data col) (DataType rc) = inl v) ->
      insertValuesV1 typeMap rel cols idx values = Panic "index out of range").
Proof.
  induction cols as [|col rest IH]; intros idx values Hle Hlt; cbn in *.
  - lia.
  - destruct (Columns rel !! idx) as [rc|] eqn:Hl; [|split; auto].
    apply lookup_lt_Some in Hl as Hidx.
    assert (forall v,
      (forall i c r,
         (col :: rest) !! i = Some c -> Columns rel !! (idx + i)%nat = Some r ->
         colDataType c = "t"%byte ->
         exists x, decodeTextColumnData typeMap (Data c) (DataType r) = inl x) ->
      insertValuesV1 typeMap rel rest (S idx) v = Panic "index out of range") as Hrest.
    { intros v Hdec. apply IH; [lia..|].
      intros i c r Hc Hr. apply (Hdec (S i)); [exact Hc|].
      replace (idx + S i)%nat with (S idx + i)%nat by lia. exact Hr. }
    destruct (Byte.eqb (colDataType col) "n"); [split; [apply IH; lia|apply Hrest]|].
    destruct (Byte.eqb (colDataType col) "u"); [split; [apply IH; lia|apply Hrest]|].
    destruct (Byte.eqb (colDataType col) "t") eqn:Ht; [|split; [apply IH; lia|apply Hrest]].
    destruct (decodeTextColumnData typeMap (Data col) (DataType rc)) as [v|err] eqn:Hd.
    + split; [apply IH; lia|apply Hrest].
    + split; [right; eauto|].
      intros Hdec. destruct (Hdec 0%nat col rc) as [v Hv]; [reflexivity| |  |].
      * rewrite Nat.add_0_r. exact Hl.
      * apply Byte.byte_dec_bl. exact Ht.
      * congruence.
Qed.

(** C10, amended. An insert whose tuple has more columns than the cached
    relation never completes, in either protocol path: it panics with an
    index out of range, unless a text column inside the relation's width
    fails to decode first, which is fatal.  When every such text column
    decodes, it panics. *)
Theorem wide_tuple_panics env typeMap (w : World) :
  (forall (m : InsertMessageV2) rel,
     relationsV2 w !! InsertRelationID (InsertV2 m) = Some rel ->
     (length (Columns (RelationV2 rel))
      < length (TupleColumns (Tuple (InsertV2 m))))%nat ->
     (switchV2 env typeMap (MInsertV2 m) w = Panic "index out of range"
      \/ exists err,
           switchV2 env typeMap (MInsertV2 m) w
           = Fatal (Printf "error decoding column data: %v" [LErr err]))
     /\ ((forall i col rc,
            TupleColumns (Tuple (InsertV2 m)) !! i = Some col ->
            Columns (RelationV2 rel) !! i = Some rc ->
            colDataType col = "t"%byte ->
            exists v, decodeTextColumnData typeMap (Data col) (DataType rc) = inl v) ->
         switchV2 env typeMap (MInsertV2 m) w = Panic "index out of range"))
  /\ (forall (m : InsertMessage) rel,
        relations w !! InsertRelationID m = Some rel ->
        (length (Columns rel) < length (TupleColumns (Tuple m)))%nat ->
        (switchV1 typeMap (MInsert m) w = Panic "index out of range"
         \/ exists err,
              switchV1 typeMap (MInsert m) w
              = Fatal (Printf "error decoding column data: %v" [LErr err]))
        /\ ((forall i col rc,
               TupleColumns (Tuple m) !! i = Some col ->
               Columns rel !! i = Some rc ->
               colDataType col = "t"%byte ->
               exists v, decodeTextColumnData typeMap (Data col) (DataType rc) = inl v) ->
            switchV1 typeMap (MInsert m) w = Panic "index out of range")).
Proof.
  split.
  - intros m rel Hr Hlen. cbn. rewrite Hr. unfold buildInsertV2.
    match goal with
    | |- context [insertColumnsV2 ?tm ?r ?cs 0 ?q ?v] =>
        destruct (insertColumnsV2_wide tm r cs 0 q v) as [[Hp|[err Hf]] Hdec];
        [lia | cbn; lia | | ]
    end.
    + split; [left|intros _]; rewrite Hp; reflexivity.
    + split; [right; exists err; rewrite Hf; reflexivity|].
      intros Hd. rewrite Hdec; [reflexivity|exact Hd].
  - intros m rel Hr Hlen. cbn. rewrite Hr.
    destruct (insertValuesV1_wide typeMap rel (TupleColumns (Tuple m)) 0 ∅)
      as [[Hp|[err Hf]] Hdec]; [lia | cbn; lia | | ].
    + split; [left|intros _]; rewrite Hp; reflexivity.
    + split; [right; exists err; rewrite Hf; reflexivity|].
      intros Hd. rewrite Hdec; [reflexivity|exact Hd].
Qed.

End WideTuple.

Lemma wide_tuple_panics_witness :
  switchV2 (pgx := quotingPgx) (quietEnv 0) digitMap
    (MInsertV2 (insertInto 1 0 [textColumn "1"; nullColumn; nullColumn]))
    (withRelationsV2 {[ 1 := relT ]} (initWorld 0))
  = Panic "index out of range".
Proof.
  refine (proj2 (proj1 (wide_tuple_panics (pgx := quotingPgx) (quietEnv 0) digitMap
                          (withRelationsV2 {[ 1 := relT ]} (initWorld 0)))
                   (insertInto 1 0 [textColumn "1"; nullColumn; nullColumn]) relT _ _) _).
  - reflexivity.
  - cbn. lia.
  - intros [|[|[|i]]] col rc Hc Hr Ht; cbn in Hc, Hr; try discriminate;
      injection Hc as <-; injection Hr as <-; try discriminate Ht.
    eexists. reflexivity.
Defined.

(** ** The tracked position *)

Section Position.
Context {Native : Type} {repl : Pglogrepl}.

#[local] Abbreviation Consumer := (Consumer Native).

Lemma standbyStatus_position env (c c' : Consumer) :
  standbyStatus env c = Done c' -> clientXLogPos c' = clientXLogPos c.
Proof.
  unfold standbyStatus. repeat case_match; intros Hs; done_inv; reflexivity.
Qed.

(** The position after the switch on a copy-data message: unchanged, or
    the strictly greater position a keepalive or a data message brought. *)
Lemma onCopyData_position data (c c' : Consumer) :
  onCopyData data c = Done c' ->
  clientXLogPos c' = clientXLogPos c
  \/ exists tag payload, data = tag :: payload
     /\ clientXLogPos c < clientXLogPos c'
     /\ ((exists pkm, tag = PrimaryKeepaliveMessageByteID
            /\ ParsePrimaryKeepaliveMessage payload = inl pkm
            /\ clientXLogPos c' = ServerWALEnd pkm)
         \/ (exists xld, tag = XLogDataByteID
               /\ ParseXLogData payload = inl xld
               /\ clientXLogPos c' = WALStart xld)).
Proof.
  unfold onCopyData. destruct data as [|tag payload]; [discriminate|].
  destruct (Byte.eqb tag PrimaryKeepaliveMessageByteID) eqn:Hk.
  - apply Byte.byte_dec_bl in Hk.
    destruct (ParsePrimaryKeepaliveMessage payload) as [pkm|] eqn:Hp; [|discriminate].
    intros Hs. done_inv. cbn.
    destruct (clientXLogPos c <? ServerWALEnd pkm) eqn:Hlt; [|auto].
    apply Z.ltb_lt in Hlt. right. exists PrimaryKeepaliveMessageByteID, payload.
    split; [reflexivity|]. split; [exact Hlt|]. left. eauto.
  - destruct (Byte.eqb tag XLogDataByteID) eqn:Hx; [|intros Hs; done_inv; auto].
    apply Byte.byte_dec_bl in Hx.
    destruct (ParseXLogData payload) as [xld|] eqn:Hp; [|discriminate].
    intros Hs. done_inv. cbn.
    destruct (clientXLogPos c <? WALStart xld) eqn:Hlt; [|auto].
    apply Z.ltb_lt in Hlt. right. exists XLogDataByteID, payload.
    split; [reflexivity|]. split; [exact Hlt|]. right. eauto.
Qed.

Lemma mainLoopIteration_position env (c c' : Consumer) :
  mainLoopIteration env c = Done c' ->
  clientXLogPos c' = clientXLogPos c
  \/ exists tag payload, received env = RecvMessage (CopyData (tag :: payload))
     /\ clientXLogPos c < clientXLogPos c'
     /\ ((exists pkm, tag = PrimaryKeepaliveMessageByteID
            /\ ParsePrimaryKeepaliveMessage payload = inl pkm
            /\ clientXLogPos c' = ServerWALEnd pkm)
         \/ (exists xld, tag = XLogDataByteID
               /\ ParseXLogData payload = inl xld
               /\ clientXLogPos c' = WALStart xld)).
Proof.
  unfold mainLoopIteration. intros Hs.
  apply obind_Done in Hs as (c1 & Hst & Hs).
  apply standbyStatus_position in Hst.
  destruct (received env) as [| |[e|data|t]]; try discriminate.
  - done_inv. auto.
  - apply onCopyData_position in Hs as [Hs|(tag & payload & -> & Hlt & Hs)].
    + left. congruence.
    + right. exists tag, payload. rewrite <- Hst. auto.
  - done_inv. cbn. auto.
Qed.

Lemma mainLoopIteration_le env (c c' : Consumer) :
  mainLoopIteration env c = Done c' -> clientXLogPos c <= clientXLogPos c'.
Proof.
  intros Hs. apply mainLoopIteration_position in Hs as [->|(? & ? & _ & Hlt & _)]; lia.
Qed.

Lemma mainLoop_from envs : forall (c ck : Consumer) k,
  mainLoop envs c !! k = Some ck -> clientXLogPos c <= clientXLogPos ck.
Proof.
  induction envs as [|env envs IH]; intros c ck k; cbn.
  - destruct k as [|k]; cbn; intros Hk;
      [injection Hk as <-; lia | try rewrite lookup_nil in Hk; discriminate].
  - destruct (mainLoopIteration env c) as [c'| |] eqn:Hs.
    + destruct k as [|k]; cbn; intros Hk.
      * injection Hk as <-. lia.
      * apply IH in Hk. apply mainLoopIteration_le in Hs. lia.
    + destruct k as [|k]; cbn; intros Hk;
        [injection Hk as <-; lia | try rewrite lookup_nil in Hk; discriminate].
    + destruct k as [|k]; cbn; intros Hk;
        [injection Hk as <-; lia | try rewrite lookup_nil in Hk; discriminate].
Qed.

Lemma mainLoop_monotone envs : forall (c ci cj : Consumer) i j,
  (i <= j)%nat ->
  mainLoop envs c !! i = Some ci -> mainLoop envs c !! j = Some cj ->
  clientXLogPos ci <= clientXLogPos cj.
Proof.
  induction envs as [|env envs IH]; intros c ci cj i j Hij Hi Hj.
  - cbn in Hi, Hj.
    destruct i as [|i]; [|cbn in Hi; try rewrite lookup_nil in Hi; discriminate].
    destruct j as [|j]; [|cbn in Hj; try rewrite lookup_nil in Hj; discriminate].
    cbn in Hi, Hj. injection Hi as <-. injection Hj as <-. lia.
  - destruct i as [|i].
    + assert (ci = c) as ->.
      { cbn in Hi. destruct (mainLoopIteration env c); cbn in Hi; congruence. }
      eapply mainLoop_from. exact Hj.
    + destruct j as [|j]; [lia|]. cbn in Hi, Hj.
      destruct (mainLoopIteration env c) as [c'| |]; cbn in Hi, Hj;
        try (try rewrite lookup_nil in Hi; discriminate Hi).
      eapply (IH c' ci cj i j); [lia|assumption..].
Qed.

(** C3. Along any run of the receive loop the tracked position never
    decreases.  An iteration changes it only to the server WAL end of a
    keepalive or the WAL start of a data message, and only when that is
    strictly greater than the tracked position; a keepalive whose server
    WAL end is not greater leaves it as it was. *)
Theorem clientXLogPos_monotone (envs : list LoopEnv) (c : Consumer) :
  (forall i j ci cj,
     (i <= j)%nat ->
     mainLoop envs c !! i = Some ci -> mainLoop envs c !! j = Some cj ->
     clientXLogPos ci <= clientXLogPos cj)
  /\ (forall env c',
        mainLoopIteration env c = Done c' ->
        clientXLogPos c' <> clientXLogPos c ->
        exists tag payload,
          received env = RecvMessage (CopyData (tag :: payload))
          /\ clientXLogPos c < clientXLogPos c'
          /\ ((exists pkm, tag = PrimaryKeepaliveMessageByteID
                 /\ ParsePrimaryKeepaliveMessage payload = inl pkm
                 /\ clientXLogPos c' = ServerWALEnd pkm)
              \/ (exists xld, tag = XLogDataByteID
                    /\ ParseXLogData payload = inl xld
                    /\ clientXLogPos c' = WALStart xld)))
  /\ (forall env c' payload pkm,
        received env = RecvMessage (CopyData (PrimaryKeepaliveMessageByteID :: payload)) ->
        ParsePrimaryKeepaliveMessage payload = inl pkm ->
        ServerWALEnd pkm <= clientXLogPos c ->
        mainLoopIteration env c = Done c' ->
        clientXLogPos c' = clientXLogPos c).
Proof.
  split; [|split].
  - intros i j ci cj. apply mainLoop_monotone.
  - intros env c' Hs Hne.
    apply mainLoopIteration_position in Hs as [Heq|Hs]; [contradiction|exact Hs].
  - intros env c' payload pkm Hr Hp Hle Hs.
    unfold mainLoopIteration in Hs.
    apply obind_Done in Hs as (c1 & Hst & Hs).
    apply standbyStatus_position in Hst. rewrite Hr in Hs. cbn in Hs.
    assert (Byte.eqb PrimaryKeepaliveMessageByteID PrimaryKeepaliveMessageByteID = true)
      as Hk by (apply Byte.byte_dec_lb; reflexivity).
    rewrite Hk, Hp in Hs. done_inv. cbn.
    rewrite Hst. destruct (clientXLogPos c <? ServerWALEnd pkm) eqn:Hlt; [|reflexivity].
    apply Z.ltb_lt in Hlt. lia.
Qed.

End Position.

Lemma clientXLogPos_monotone_witness :
  mainLoopIteration (Native := Z) (repl := tableRepl [])
    (receiving ["k"%byte; "007"%byte; "000"%byte]) consumerAt40
  = Done consumerAt40
  /\ clientXLogPos consumerAt40 = 40.
Proof.
  assert (mainLoopIteration (Native := Z) (repl := tableRepl [])
            (receiving ["k"%byte; "007"%byte; "000"%byte]) consumerAt40
          = Done consumerAt40) as Hs by reflexivity.
  split; [exact Hs|].
  symmetry.
  apply (proj2 (proj2 (clientXLogPos_monotone (Native := Z) (repl := tableRepl [])
                         [] consumerAt40))
           (receiving ["k"%byte; "007"%byte; "000"%byte]) consumerAt40
           ["007"%byte; "000"%byte]
           {| ServerWALEnd := 7; ServerTime := 0; ReplyRequested := false |}
           eq_refl eq_refl ltac:(cbn; lia) Hs).
Defined.

(** * Further properties *)

(** ** The text and the values of an insert *)

Lemma append_nil_r (s : string) : s +:+ "" = s.
Proof.
  induction s as [|x s IH]; [reflexivity|].
  change (String x (s +:+ "") = String x s). rewrite IH. reflexivity.
Qed.

Lemma concat_empty_cons (x : string) (xs : list string) :
  String.concat "" (x :: xs) = x +:+ String.concat "" xs.
Proof. destruct xs; cbn; [rewrite append_nil_r|]; reflexivity. Qed.

Lemma concat_comma_cons (x : string) (xs : list string) :
  String.concat ", " (x :: xs)
  = x +:+ String.concat "" (map (String.append ", ") xs).
Proof.
  revert x. induction xs as [|y xs IH]; intros x.
  - cbn. rewrite append_nil_r. reflexivity.
  - change (x +:+ ", " +:+ String.concat ", " (y :: xs)
            = x +:+ String.concat "" ((", " +:+ y) :: map (String.append ", ") xs)).
    rewrite IH, concat_empty_cons, append_assoc. reflexivity.
Qed.

Lemma omap_cons {A B} (f : A -> option B) (x : A) (l : list A) :
  omap f (x :: l) = match f x with Some y => y :: omap f l | None => omap f l end.
Proof. reflexivity. Qed.

Lemma insert_query_step (idx : nat) (query name : string) (names : list string) :
  (if (idx =? 0)%nat then query +:+ name else query +:+ ", " +:+ name)
  +:+ String.concat "" (map (String.append ", ") names)
  = query +:+
    (if (idx =? 0)%nat then String.concat ", " (name :: names)
     else String.concat "" (map (String.append ", ") (name :: names))).
Proof.
  destruct (idx =? 0)%nat.
  - rewrite concat_comma_cons, append_assoc. reflexivity.
  - cbn [map]. rewrite concat_empty_cons, !append_assoc. reflexivity.
Qed.

Section InsertShape.
Context {Native : Type} {pgx : Pgx}.

#[local] Abbreviation World := (World Native).

(** What the first loop returns when it returns: the tuple is no wider
    than the relation from [idx] on, the names of the relation's columns
    at the tuple's positions have been appended, and the values bound are
    those of the columns in order. *)
Lemma insertColumnsV2_Done typeMap rel cols :
  forall idx query (vals : list (any Native)) q' vals',
  insertColumnsV2 typeMap rel cols idx query vals = Done (q', vals') ->
  (cols <> [] -> (idx + length cols <= length (Columns rel))%nat)
  /\ q' = query +:+
          (let names := map (fun rc => Sanitize [Name rc])
                          (take (length cols) (drop idx (Columns rel))) in
           if (idx =? 0)%nat then String.concat ", " names
           else String.concat "" (map (String.append ", ") names))
  /\ vals' = vals ++ omap (boundValue typeMap) (zip cols (drop idx (Columns rel))).
Proof.
  induction cols as [|col rest IH]; intros idx query vals q' vals' Hs.
  - cbn in Hs. done_inv. cbn. split; [|split].
    + intros Hne. contradiction.
    + destruct (idx =? 0)%nat; cbn; rewrite append_nil_r; reflexivity.
    + rewrite app_nil_r. reflexivity.
  - cbn in Hs.
    destruct (Columns rel !! idx) as [rc|] eqn:Hl; [|discriminate].
    apply lookup_lt_Some in Hl as Hidx.
    rewrite (drop_S _ _ _ Hl). cbn [length take map zip zip_with].
    rewrite omap_cons.
    assert (forall v0 q1 v1,
      insertColumnsV2 typeMap rel rest (S idx)
        (if (idx =? 0)%nat then query +:+ Sanitize [Name rc]
         else query +:+ ", " +:+ Sanitize [Name rc]) v0 = Done (q1, v1) ->
      (col :: rest <> [] -> (idx + S (length rest) <= length (Columns rel))%nat)
      /\ q1 = query +:+
              (if (idx =? 0)%nat
               then String.concat ", "
                      (Sanitize [Name rc]
                       :: map (fun rc => Sanitize [Name rc])
                            (take (length rest) (drop (S idx) (Columns rel))))
               else String.concat ""
                      (map (String.append ", ")
                         (Sanitize [Name rc]
                          :: map (fun rc => Sanitize [Name rc])
                               (take (length rest) (drop (S idx) (Columns rel))))))
      /\ v1 = v0 ++ omap (boundValue typeMap) (zip rest (drop (S idx) (Columns rel))))
      as Hrec.
    { intros v0 q1 v1 Hr. apply IH in Hr as (Hb & Hq & Hv). split; [|split].
      - intros _. destruct rest as [|c r]; [cbn; lia|].
        specialize (Hb ltac:(discriminate)). cbn in *. lia.
      - rewrite Hq. cbn zeta. change (S idx =? 0)%nat with false. cbv iota.
        apply insert_query_step.
      - exact Hv. }
    unfold boundValue at 1. cbn [fst snd].
    destruct (Byte.eqb (colDataType col) "n").
    { apply Hrec in Hs as (Hb & Hq & Hv). split; [exact Hb|]. split; [exact Hq|].
      rewrite Hv, <- app_assoc. reflexivity. }
    destruct (Byte.eqb (colDataType col) "u").
    { apply Hrec in Hs as (Hb & Hq & Hv). split; [exact Hb|]. split; assumption. }
    destruct (Byte.eqb (colDataType col) "t").
    { destruct (decodeTextColumnData typeMap (Data col) (DataType rc)) as [v|err];
        [|discriminate].
      apply Hrec in Hs as (Hb & Hq & Hv). split; [exact Hb|]. split; [exact Hq|].
      rewrite Hv, <- app_assoc. reflexivity. }
    apply Hrec in Hs as (Hb & Hq & Hv). split; [exact Hb|]. split; assumption.
Qed.

Lemma insertPlaceholders_text (cols : list TupleDataColumn) :
  forall idx query,
  insertPlaceholders cols idx query
  = query +:+
    (let ps := map (fun i => "$" +:+ itoa i) (seq (idx + 1) (length cols)) in
     if (idx =? 0)%nat then String.concat ", " ps
     else String.concat "" (map (String.append ", ") ps)).
Proof.
  induction cols as [|col rest IH]; intros idx query.
  - cbn. destruct (idx =? 0)%nat; cbn; rewrite append_nil_r; reflexivity.
  - cbn [insertPlaceholders length seq map]. rewrite IH. cbn zeta.
    change (S idx =? 0)%nat with false. cbv iota.
    change (S idx + 1)%nat with (S (idx + 1)).
    change (query +:+ ", $" +:+ itoa (idx + 1))
      with (query +:+ ", " +:+ "$" +:+ itoa (idx + 1)).
    apply insert_query_step.
Qed.

Lemma insertColumnsV2_Done_decodes typeMap rel cols :
  forall idx query (vals : list (any Native)) qv,
  insertColumnsV2 typeMap rel cols idx query vals = Done qv ->
  forall i col rc,
    cols !! i = Some col -> Columns rel !! (idx + i)%nat = Some rc ->
    colDataType col = "t"%byte ->
    exists v, decodeTextColumnData typeMap (Data col) (DataType rc) = inl v.
Proof.
  induction cols as [|c rest IH]; intros idx query vals qv Hs i col rc Hc Hr Ht.
  - rewrite lookup_nil in Hc. discriminate.
  - cbn in Hs. destruct (Columns rel !! idx) as [rc0|] eqn:Hl; [|discriminate].
    destruct i as [|i].
    + cbn in Hc. injection Hc as ->. rewrite Nat.add_0_r, Hl in Hr. injection Hr as ->.
      rewrite Ht in Hs. cbn in Hs.
      destruct (decodeTextColumnData typeMap (Data col) (DataType rc)) as [v|];
        [eauto|discriminate].
    + cbn in Hc. replace (idx + S i)%nat with (S idx + i)%nat in Hr by lia.
      repeat case_match; try discriminate; eapply IH; eauto.
Qed.

Lemma insertColumnsV2_succeeds typeMap rel cols :
  forall idx query (vals : list (any Native)),
  (idx + length cols <= length (Columns rel))%nat ->
  (forall i col rc,
     cols !! i = Some col -> Columns rel !! (idx + i)%nat = Some rc ->
     colDataType col = "t"%byte ->
     exists v, decodeTextColumnData typeMap (Data col) (DataType rc) = inl v) ->
  exists qv, insertColumnsV2 typeMap rel cols idx query vals = Done qv.
Proof.
  induction cols as [|c rest IH]; intros idx query vals Hlen Hdec; cbn in *.
  - eauto.
  - destruct (Columns rel !! idx) as [rc|] eqn:Hl;
      [|apply lookup_ge_None in Hl; lia].
    assert (forall q v, exists qv,
              insertColumnsV2 typeMap rel rest (S idx) q v = Done qv) as Hrest.
    { intros q v. apply IH; [lia|].
      intros i col rc' Hc Hr. apply (Hdec (S i)); [exact Hc|].
      replace (idx + S i)%nat with (S idx + i)%nat by lia. exact Hr. }
    destruct (Byte.eqb (c.(colDataType)) "n"); [apply Hrest|].
    destruct (Byte.eqb (c.(colDataType)) "u"); [apply Hrest|].
    destruct (Byte.eqb (c.(colDataType)) "t") eqn:Ht; [|apply Hrest].
    destruct (Hdec 0%nat c rc) as [v Hv]; [reflexivity| | |].
    + rewrite Nat.add_0_r. exact Hl.
    + apply Byte.byte_dec_bl. exact Ht.
    + rewrite Hv. apply Hrest.
Qed.

(** X1. A version-2 insert for a cached relation returns normally exactly
    when its tuple is no wider than the relation and its text columns
    decode; it then queues one query and changes nothing else.  The query
    names the relation's columns at the tuple's positions, has one
    placeholder per tuple column, and binds the values of the null and
    text columns in column order. *)
Theorem insert_done_iff env typeMap (w w' : World) (m : InsertMessageV2) rel :
  relationsV2 w !! InsertRelationID (InsertV2 m) = Some rel ->
  switchV2 env typeMap (MInsertV2 m) w = Done w'
  <-> ((length (TupleColumns (Tuple (InsertV2 m)))
        <= length (Columns (RelationV2 rel)))%nat
       /\ textColumnsDecode typeMap (RelationV2 rel) (TupleColumns (Tuple (InsertV2 m)))
       /\ w' = withApplyCtx
                 (queue
                    (insertText (RelationV2 rel)
                       (length (TupleColumns (Tuple (InsertV2 m)))))
                    (omap (boundValue typeMap)
                       (zip (TupleColumns (Tuple (InsertV2 m)))
                          (Columns (RelationV2 rel))))
                    (applyCtx w))
                 w).
Proof.
  intros Hr. cbn. rewrite Hr. unfold buildInsertV2.
  set (cols := TupleColumns (Tuple (InsertV2 m))).
  set (r := RelationV2 rel).
  set (q0 := "INSERT INTO " +:+ Sanitize [Namespace r; RelationName r] +:+ "(").
  split.
  - intros Hs. apply obind_Done in Hs as (qv & Hs & Hd).
    apply obind_Done in Hs as ([q1 v1] & Hc & Hq). done_inv.
    pose proof (insertColumnsV2_Done_decodes _ _ _ _ _ _ _ Hc) as Hdec.
    apply insertColumnsV2_Done in Hc as (Hb & Hq & Hv). cbn in Hq, Hv, Hdec.
    split; [|split].
    + destruct cols; [cbn; lia|]. apply Hb. discriminate.
    + exact Hdec.
    + cbn [fst snd]. rewrite insertPlaceholders_text. cbn. subst q1 v1.
      unfold insertText, q0. rewrite !append_assoc. reflexivity.
  - intros (Hlen & Hdec & ->).
    destruct (insertColumnsV2_succeeds typeMap r cols 0 q0 [] Hlen Hdec) as [[q1 v1] Hc].
    rewrite Hc. cbn.
    apply insertColumnsV2_Done in Hc as (_ & Hq & Hv). cbn in Hq, Hv.
    rewrite insertPlaceholders_text. cbn. subst q1 v1.
    unfold insertText, q0. rewrite !append_assoc. reflexivity.
Qed.

End InsertShape.

Lemma insert_done_iff_witness :
  switchV2 (pgx := quotingPgx) (quietEnv 0) digitMap
    (MInsertV2 (insertInto 1 0 [textColumn "1"; nullColumn]))
    (withRelationsV2 {[ 1 := relT ]} (initWorld 0))
  = Done (withApplyCtx
            (queue (insertText (pgx := quotingPgx) (RelationV2 relT) 2)
               [AnyNative 1; AnyNil] (applyCtx (initWorld 0)))
            (withRelationsV2 {[ 1 := relT ]} (initWorld 0))).
Proof.
  refine (proj2 (insert_done_iff (pgx := quotingPgx) (quietEnv 0) digitMap
                   (withRelationsV2 {[ 1 := relT ]} (initWorld 0)) _
                   (insertInto 1 0 [textColumn "1"; nullColumn]) relT _) _).
  - reflexivity.
  - split; [cbn; lia|]. split; [|reflexivity].
    intros [|[|i]] col rc Hc Hr Ht; cbn in Hc, Hr; try discriminate;
      injection Hc as <-; injection Hr as <-; try discriminate Ht.
    eexists. reflexivity.
Defined.

(** ** When the goroutine panics *)

Section Panics.
Context {Native : Type} {pgx : Pgx} {repl : Pglogrepl}.

#[local] Abbreviation World := (World Native).

Lemma insertColumnsV2_Panic typeMap rel cols :
  forall idx query (vals : list (any Native)) reason,
  insertColumnsV2 typeMap rel cols idx query vals = Panic reason ->
  (length (Columns rel) < idx + length cols)%nat /\ reason = "index out of range".
Proof.
  induction cols as [|c rest IH]; intros idx query vals reason Hs; cbn in Hs.
  - discriminate.
  - destruct (Columns rel !! idx) as [rc|] eqn:Hl.
    + assert (forall q v,
                insertColumnsV2 typeMap rel rest (S idx) q v = Panic reason ->
                (length (Columns rel) < idx + length (c :: rest))%nat
                /\ reason = "index out of range") as Hrest.
      { intros q v Hp. apply IH in Hp as [Hlt ->]. cbn. split; [lia|reflexivity]. }
      repeat case_match; try discriminate; eapply Hrest; eauto.
    + apply lookup_ge_None in Hl. injection Hs as <-. cbn. split; [lia|reflexivity].
Qed.

(** X2. The goroutine panics in two cases only: the decoder itself
    panics on the buffer, or the buffer decodes to an insert for a cached
    relation whose tuple has more columns than the relation, and the
    panic is then the index out of range.  No other message, no timer
    turn and no timer expiry panics. *)
Theorem applyStep_panic_causes typeMap ev env (w : World) reason :
  applyStep typeMap ev env w = Panic reason ->
  exists walData,
    ev = WalDataCh walData
    /\ (ParseV2 walData (inStream w) = inr (Panicked reason)
        \/ exists m rel,
             ParseV2 walData (inStream w) = inl (MInsertV2 m)
             /\ relationsV2 w !! InsertRelationID (InsertV2 m) = Some rel
             /\ (length (Columns (RelationV2 rel))
                 < length (TupleColumns (Tuple (InsertV2 m))))%nat
             /\ reason = "index out of range").
Proof.
  intros Hs. destruct ev as [|walData|]; cbn in Hs.
  - destruct (timerC (applyCtx w)); [|discriminate].
    unfold flush in Hs. cbn in Hs. repeat case_match; discriminate.
  - exists walData. split; [reflexivity|].
    rewrite v2_true in Hs. unfold processV2 in Hs.
    destruct (ParseV2 walData (inStream w)) as [m|[err|r]] eqn:Hp;
      [|discriminate|injection Hs as ->; auto].
    right. destruct m; cbn in Hs; try discriminate.
    + unfold commit, flush in Hs. cbn in Hs. repeat case_match; discriminate.
    + destruct (relationsV2 w !! InsertRelationID (InsertV2 m)) as [rel|] eqn:Hr;
        [|discriminate].
      unfold buildInsertV2 in Hs.
      destruct (insertColumnsV2 typeMap (RelationV2 rel)
                  (TupleColumns (Tuple (InsertV2 m))) 0
                  ("INSERT INTO "
                   +:+ Sanitize [Namespace (RelationV2 rel); RelationName (RelationV2 rel)]
                   +:+ "(") []) as [qv|e|r] eqn:Hc; cbn in Hs; try discriminate.
      injection Hs as ->. apply insertColumnsV2_Panic in Hc as [Hlt ->].
      exists m, rel. cbn in Hlt. auto.
  - destruct (timer (applyCtx w)); discriminate.
Qed.

End Panics.

Lemma applyStep_panic_causes_witness :
  (exists walData,
     WalDataCh ["001"%byte] = WalDataCh walData
     /\ exists m rel,
          ParseV2 (Pglogrepl := tableRepl wideTable) walData false = inl (MInsertV2 m)
          /\ ({[ 1 := relT ]} : gmap Z RelationMessageV2) !! InsertRelationID (InsertV2 m)
             = Some rel
          /\ (length (Columns (RelationV2 rel))
              < length (TupleColumns (Tuple (InsertV2 m))))%nat)
  /\ applyStep (pgx := quotingPgx) (repl := tableRepl wideTable)
       ∅ (WalDataCh []) (quietEnv 0) (initWorld (Native := Z) 0)
     = Panic "index out of range".
Proof.
  split; [|reflexivity].
  assert (applyStep (pgx := quotingPgx) (repl := tableRepl wideTable)
            ∅ (WalDataCh ["001"%byte]) (quietEnv 0)
            (withRelationsV2 {[ 1 := relT ]} (initWorld (Native := Z) 0))
          = Panic "index out of range") as Hs by reflexivity.
  destruct (applyStep_panic_causes _ _ _ _ _ Hs)
    as (walData & He & [Hp|(m & rel & Hp & Hr & Hlt & _)]).
  - injection He as <-. discriminate Hp.
  - exists walData. split; [exact He|]. exists m, rel. auto.
Defined.

(** ** The values logged by the version-1 path *)

Lemma NoDup_names_ne (l : list RelationMessageColumn) a b x y :
  NoDup (map Name l) -> l !! a = Some x -> l !! b = Some y -> a <> b ->
  Name x <> Name y.
Proof.
  intros Hnd Ha Hb Hab Heq. apply Hab.
  eapply (NoDup_lookup _ a b (Name x) Hnd).
  - change (map Name l) with (Name <$> l). rewrite list_lookup_fmap, Ha. reflexivity.
  - change (map Name l) with (Name <$> l). rewrite list_lookup_fmap, Hb, Heq. reflexivity.
Qed.

Section ValuesV1.
Context {Native : Type}.

#[local] Abbreviation World := (World Native).

(** The map after one column: an entry for its name when a value is
    bound, the map as it was otherwise. *)
Lemma insertValuesV1_step typeMap rel c rest idx rc
    (values values' : gmap string (any Native)) :
  Columns rel !! idx = Some rc ->
  insertValuesV1 typeMap rel (c :: rest) idx values = Done values' ->
  insertValuesV1 typeMap rel rest (S idx)
    match boundValue typeMap (c, rc) with
    | Some v => <[Name rc := v]> values
    | None => values
    end = Done values'.
Proof.
  intros Hl Hs. cbn in Hs. rewrite Hl in Hs. unfold boundValue. cbn [fst snd].
  repeat case_match; try discriminate; exact Hs.
Qed.

Lemma insertValuesV1_untouched typeMap rel cols :
  forall idx (values values' : gmap string (any Native)) k,
  insertValuesV1 typeMap rel cols idx values = Done values' ->
  (forall i rc, (i < length cols)%nat ->
     Columns rel !! (idx + i)%nat = Some rc -> Name rc <> k) ->
  values' !! k = values !! k.
Proof.
  induction cols as [|c rest IH]; intros idx values values' k Hs Hne.
  - cbn in Hs. done_inv. reflexivity.
  - assert (exists rc, Columns rel !! idx = Some rc) as [rc Hl].
    { cbn in Hs. destruct (Columns rel !! idx); [eauto|discriminate]. }
    apply (insertValuesV1_step _ _ _ _ _ _ _ _ Hl) in Hs.
    rewrite (IH _ _ _ k Hs).
    + assert (Name rc <> k) as Hk.
      { apply (Hne 0%nat); [cbn; lia|]. rewrite Nat.add_0_r. exact Hl. }
      destruct (boundValue typeMap (c, rc)); [apply lookup_insert_ne; exact Hk|reflexivity].
    + intros i rc' Hi Hr. apply (Hne (S i)); [cbn; lia|].
      replace (idx + S i)%nat with (S idx + i)%nat by lia. exact Hr.
Qed.

Lemma insertValuesV1_entry typeMap rel cols :
  NoDup (map Name (Columns rel)) ->
  forall idx (values values' : gmap string (any Native)) i col rc,
  insertValuesV1 typeMap rel cols idx values = Done values' ->
  cols !! i = Some col -> Columns rel !! (idx + i)%nat = Some rc ->
  values' !! Name rc
  = match boundValue typeMap (col, rc) with
    | Some v => Some v
    | None => values !! Name rc
    end.
Proof.
  intros Hnd. induction cols as [|c rest IH];
    intros idx values values' i col rc Hs Hc Hr.
  - rewrite lookup_nil in Hc. discriminate.
  - assert (exists rc0, Columns rel !! idx = Some rc0) as [rc0 Hl].
    { cbn in Hs. destruct (Columns rel !! idx); [eauto|discriminate]. }
    apply (insertValuesV1_step _ _ _ _ _ _ _ _ Hl) in Hs.
    destruct i as [|i].
    + cbn in Hc. injection Hc as ->. rewrite Nat.add_0_r, Hl in Hr. injection Hr as ->.
      rewrite (insertValuesV1_untouched _ _ _ _ _ _ (Name rc) Hs).
      * destruct (boundValue typeMap (col, rc)); [apply lookup_insert_eq|reflexivity].
      * intros j rc' _ Hr'. eapply NoDup_names_ne; eauto. lia.
    + cbn in Hc. replace (idx + S i)%nat with (S idx + i)%nat in Hr by lia.
      rewrite (IH _ _ _ _ _ _ Hs Hc Hr).
      destruct (boundValue typeMap (col, rc)); [reflexivity|].
      destruct (boundValue typeMap (c, rc0)); [|reflexivity].
      apply lookup_insert_ne. eapply NoDup_names_ne; eauto. lia.
Qed.

(** X3. A version-1 insert that returns normally logs one line with the
    map of values.  When the relation's column names are distinct, the
    entry of each tuple column's name is the value bound for it: [nil]
    for a null column, the decoded value for a text column, and no entry
    for an unchanged-toast column. *)
Theorem processV1_insert_values typeMap (w w' : World) (m : InsertMessage) rel :
  relations w !! InsertRelationID m = Some rel ->
  NoDup (map Name (Columns rel)) ->
  switchV1 typeMap (MInsert m) w = Done w' ->
  exists values,
    w' = logPrintf [Printf "INSERT INTO %s.%s: %v"
                      [LStr (Namespace rel); LStr (RelationName rel); LValues values]] w
    /\ forall i col rc,
         TupleColumns (Tuple m) !! i = Some col -> Columns rel !! i = Some rc ->
         values !! Name rc = boundValue typeMap (col, rc).
Proof.
  intros Hr Hnd Hs. cbn in Hs. rewrite Hr in Hs.
  apply obind_Done in Hs as (values & Hv & Hs). done_inv.
  exists values. split; [reflexivity|].
  intros i col rc Hc Hl.
  rewrite (insertValuesV1_entry _ _ _ Hnd 0%nat _ _ i col rc Hv Hc Hl).
  rewrite lookup_empty. destruct (boundValue typeMap (col, rc)); reflexivity.
Qed.

(** X4. The version-1 path never queues, flushes or touches the timer,
    and leaves the streaming flag and the version-2 relation cache
    alone: whatever the buffer decodes to, only the version-1 relation
    cache and the log can change. *)
Theorem processV1_leaves_apply_context {repl : Pglogrepl}
    typeMap walData (w w' : World) :
  processV1 typeMap walData w = Done w' ->
  applyCtx w' = applyCtx w
  /\ inStream w' = inStream w
  /\ relationsV2 w' = relationsV2 w
  /\ decoded w' = decoded w
  /\ forall id, relations w' !! id <> relations w !! id ->
       exists m, Parse walData = inl (MRelation m) /\ RelationID m = id
                 /\ relations w' !! id = Some m.
Proof.
  unfold processV1. destruct (Parse walData) as [m|[err|reason]]; [|discriminate..].
  intros Hs.
  destruct m; cbn in Hs; done_inv; cbn;
    try (repeat split; try reflexivity; intros id Hid; contradiction).
  - repeat split; try reflexivity. intros id Hid.
    destruct (decide (RelationID m = id)) as [<-|Hne].
    + exists m. rewrite lookup_insert_eq. auto.
    + rewrite lookup_insert_ne in Hid by exact Hne. contradiction.
  - destruct (relations w !! InsertRelationID m); [|discriminate].
    apply obind_Done in Hs as (values & _ & Hs). done_inv. cbn.
    repeat split; try reflexivity. intros id Hid. contradiction.
Qed.

End ValuesV1.

Lemma processV1_insert_values_witness :
  exists values : gmap string (any Z),
    switchV1 digitMap
      (MInsert {| InsertRelationID := 1;
                  Tuple := {| TupleColumns := [textColumn "1"; unchangedToastColumn] |} |})
      (withRelations {[ 1 := RelationV2 relT ]} (initWorld 0))
    = Done (logPrintf [Printf "INSERT INTO %s.%s: %v"
                         [LStr "public"; LStr "t"; LValues values]]
              (withRelations {[ 1 := RelationV2 relT ]} (initWorld 0)))
    /\ values !! "id" = Some (AnyNative 1)
    /\ values !! "big" = None.
Proof.
  assert (NoDup (map Name (Columns (RelationV2 relT)))) as Hnd.
  { cbn. apply NoDup_cons. split; [|apply NoDup_singleton].
    intros Hin. apply list_elem_of_singleton in Hin. discriminate Hin. }
  destruct (switchV1 digitMap
      (MInsert {| InsertRelationID := 1;
                  Tuple := {| TupleColumns := [textColumn "1"; unchangedToastColumn] |} |})
      (withRelations {[ 1 := RelationV2 relT ]} (initWorld 0))) as [w'| |] eqn:Hs.
  - assert (relations (withRelations {[ 1 := RelationV2 relT ]} (initWorld (Native := Z) 0))
              !! 1 = Some (RelationV2 relT)) as Hr by reflexivity.
    destruct (processV1_insert_values digitMap
                (withRelations {[ 1 := RelationV2 relT ]} (initWorld 0)) w'
                {| InsertRelationID := 1;
                   Tuple := {| TupleColumns := [textColumn "1"; unchangedToastColumn] |} |}
                (RelationV2 relT) Hr Hnd Hs)
      as (values & -> & Hv).
    exists values. split; [reflexivity|]. split.
    + apply (Hv 0%nat (textColumn "1")
               {| Flags := 1; Name := "id"; DataType := int4OID; TypeModifier := -1 |});
        reflexivity.
    + apply (Hv 1%nat unchangedToastColumn
               {| Flags := 0; Name := "big"; DataType := textOID; TypeModifier := -1 |});
        reflexivity.
  - vm_compute in Hs. discriminate Hs.
  - vm_compute in Hs. discriminate Hs.
Defined.

Lemma processV1_leaves_apply_context_witness :
  match processV1 (repl := tableRepl beginTable) digitMap ["000"%byte] (initWorld 0) with
  | Done w' => applyCtx w' = applyCtx (initWorld 0) /\ inStream w' = false
  | _ => False
  end.
Proof.
  destruct (processV1 (repl := tableRepl beginTable) digitMap ["000"%byte] (initWorld 0))
    as [w'| |] eqn:Hs.
  - destruct (processV1_leaves_apply_context _ _ _ _ Hs) as (Ha & Hi & _).
    split; assumption.
  - vm_compute in Hs. discriminate Hs.
  - vm_compute in Hs. discriminate Hs.
Defined.

(** ** What the goroutine keeps *)

Section Kept.
Context {Native : Type} {pgx : Pgx} {repl : Pglogrepl}.

#[local] Abbreviation World := (World Native).
#[local] Abbreviation applyContext := (applyContext Native).

Lemma applyLoop_invariant (P : World -> Prop) typeMap :
  (forall ev env w w', applyStep typeMap ev env w = Done w' -> P w -> P w') ->
  forall evs w w', applyLoop typeMap evs w = Done w' -> P w -> P w'.
Proof.
  intros Hstep evs. induction evs as [|[ev env] evs IH]; intros w w' Hs Hw; cbn in Hs.
  - done_inv. exact Hw.
  - apply obind_Done in Hs as (w1 & Hs1 & Hs). eauto.
Qed.

Lemma switchV2_relations env typeMap (m : Message) (w w' : World) :
  switchV2 env typeMap m w = Done w' ->
  relations w' = relations w
  /\ relationsV2 w'
     = match m with
       | MRelationV2 r => <[RelationID (RelationV2 r) := r]> (relationsV2 w)
       | _ => relationsV2 w
       end.
Proof.
  destruct m; cbn; intros Hs; done_inv; cbn; auto.
  - apply obind_Done in Hs as (al & _ & Hs). done_inv. auto.
  - case_match; [|discriminate].
    apply obind_Done in Hs as (qv & _ & Hs). done_inv. auto.
Qed.

(** X5. The version-2 relation cache is the fold of the relation
    messages decoded so far, each stored under its relation id: the last
    definition of an id is the one found, an id without a definition is
    absent, and no entry is ever removed. *)
Theorem relation_cache_last_write_wins typeMap evs startup (w : World) :
  applyLoop typeMap evs (initWorld startup) = Done w ->
  relationsV2 w = fold_left cacheStep (decoded w) ∅
  /\ relations w = ∅
  /\ (forall ev env w' id,
        applyStep typeMap ev env w = Done w' ->
        is_Some (relationsV2 w !! id) -> is_Some (relationsV2 w' !! id))
  /\ (forall env walData r w',
        ParseV2 walData (inStream w) = inl (MRelationV2 r) ->
        processV2 env typeMap walData w = Done w' ->
        relationsV2 w' !! RelationID (RelationV2 r) = Some r
        /\ forall id, id <> RelationID (RelationV2 r) ->
             relationsV2 w' !! id = relationsV2 w !! id).
Proof.
  intros Hrun.
  assert (relationsV2 w = fold_left cacheStep (decoded w) ∅ /\ relations w = ∅) as [Hc Hv1].
  { refine (applyLoop_invariant
              (fun x => relationsV2 x = fold_left cacheStep (decoded x) ∅
                        /\ relations x = ∅) typeMap _ _ _ _ Hrun _);
      [|split; reflexivity].
    intros ev env w0 w1 Hs [H2 H1]. destruct ev as [|walData|].
    - apply applyStep_timer_turn in Hs as [[_ ->]|(_ & a' & l & _ & ->)]; auto.
    - cbn in Hs. rewrite v2_true in Hs.
      pose proof (processV2_fields _ _ _ _ _ Hs) as (m & Hp & Hd & _).
      unfold processV2 in Hs. rewrite Hp in Hs.
      apply switchV2_relations in Hs as [Hr1 Hr2]. cbn in Hr1, Hr2.
      split; [|congruence].
      rewrite Hd, fold_left_app. cbn. unfold cacheStep at 1. cbn. rewrite Hp, <- H2, Hr2.
      destruct m; reflexivity.
    - apply applyStep_expires in Hs as (a' & -> & _). auto. }
  split; [exact Hc|]. split; [exact Hv1|]. split.
  - intros ev env w' id Hs Hsome. destruct ev as [|walData|].
    + apply applyStep_timer_turn in Hs as [[_ ->]|(_ & a' & l & _ & ->)]; auto.
    + cbn in Hs. rewrite v2_true in Hs.
      apply processV2_Done in Hs as (m & _ & Hs).
      apply switchV2_relations in Hs as [_ Hr2]. cbn in Hr2. rewrite Hr2.
      destruct m; auto.
      destruct (decide (RelationID (RelationV2 m) = id)) as [<-|Hne].
      * rewrite lookup_insert_eq. eauto.
      * rewrite lookup_insert_ne by exact Hne. exact Hsome.
    + apply applyStep_expires in Hs as (a' & -> & _). auto.
  - intros env walData r w' Hp Hs. unfold processV2 in Hs. rewrite Hp in Hs.
    cbn in Hs. done_inv. cbn. split; [apply lookup_insert_eq|].
    intros id Hne. apply lookup_insert_ne. congruence.
Qed.

(** A flush keeps every queued query: what it sends leaves the batch and
    joins the executed groups. *)
Lemma flush_delivered env (a a' : applyContext) l :
  flush env a = Done (a', l) -> delivered a' = delivered a.
Proof.
  unfold flush. repeat case_match; intros Hs; try discriminate; done_inv;
    [reflexivity|].
  unfold delivered, flushed. cbn.
  rewrite map_app, concat_app. cbn. rewrite removelast_last, !app_nil_r. reflexivity.
Qed.

Lemma commit_delivered env lsn ts (a a' : applyContext) l :
  commit env lsn ts a = Done (a', l) -> delivered a' = delivered a.
Proof.
  unfold commit. case_match; intros Hs.
  - apply flush_delivered in Hs. exact Hs.
  - done_inv. reflexivity.
Qed.

Lemma applyStep_delivered typeMap ev env (w w' : World) :
  applyStep typeMap ev env w = Done w' ->
  (delivered (applyCtx w') = delivered (applyCtx w)
   /\ filter isInsertV2 (decoded w') = filter isInsertV2 (decoded w))
  \/ exists q d,
       delivered (applyCtx w') = delivered (applyCtx w) ++ [q]
       /\ filter isInsertV2 (decoded w') = filter isInsertV2 (decoded w) ++ [d].
Proof.
  intros Hs. destruct ev as [|walData|]; [| |left].
  - left. apply applyStep_timer_turn in Hs as [[_ ->]|(_ & a' & l & Hf & ->)]; [auto|].
    apply flush_delivered in Hf. cbn. auto.
  - cbn in Hs. rewrite v2_true in Hs.
    pose proof (processV2_fields _ _ _ _ _ Hs) as (m & Hp & Hd & _).
    unfold processV2 in Hs. rewrite Hp in Hs. rewrite Hd, filter_app.
    assert (forall b, isInsertV2 (walData, inStream w) = b ->
              filter isInsertV2 [(walData, inStream w)]
              = if b then [(walData, inStream w)] else []) as Hfil.
    { intros b Hb. cbn. unfold filter. cbn. rewrite Hb.
      destruct b; reflexivity. }
    assert (isInsertV2 (walData, inStream w)
            = match m with MInsertV2 _ => true | _ => false end) as Hins.
    { unfold isInsertV2. cbn. rewrite Hp. reflexivity. }
    destruct m; cbn in Hs; done_inv; cbn [applyCtx withApplyCtx logPrintf noteDecode
      withInStream withRelationsV2];
      try (left; split; [reflexivity|];
           rewrite (Hfil false Hins), app_nil_r; reflexivity).
    + left. apply obind_Done in Hs as ([a' l] & Hc & Hs). done_inv.
      apply commit_delivered in Hc.
      split; [cbn; exact Hc|].
      rewrite (Hfil false Hins), app_nil_r. reflexivity.
    + right. case_match; [|discriminate].
      apply obind_Done in Hs as (qv & _ & Hs). done_inv.
      exists {| SQL := fst qv; Arguments := snd qv |}, (walData, inStream w).
      split; [|rewrite (Hfil true Hins); reflexivity].
      unfold delivered. cbn. rewrite app_assoc. reflexivity.
  - apply applyStep_expires in Hs as (a' & -> & Hc & Hb & _).
    unfold delivered. cbn. rewrite Hc, Hb. auto.
Qed.

(** X6. No queued query is lost, repeated or reordered: the queries of
    the executed groups (origin writes aside) followed by the pending
    batch are one query per insert decoded, and a turn of the goroutine
    only ever adds to the end of that list. *)
Theorem queued_queries_conserved typeMap evs startup (w : World) :
  applyLoop typeMap evs (initWorld startup) = Done w ->
  length (delivered (applyCtx w)) = length (filter isInsertV2 (decoded w))
  /\ forall evs' w',
       applyLoop typeMap evs' w = Done w' ->
       delivered (applyCtx w) `prefix_of` delivered (applyCtx w').
Proof.
  intros Hrun. split.
  - refine (applyLoop_invariant
              (fun x => length (delivered (applyCtx x))
                        = length (filter isInsertV2 (decoded x))) typeMap _ _ _ _ Hrun _);
      [|reflexivity].
    intros ev env w0 w1 Hs Hlen.
    apply applyStep_delivered in Hs as [[-> ->]|(q & d & -> & ->)]; [exact Hlen|].
    rewrite !length_app, Hlen. reflexivity.
  - intros evs' w' Hrun'.
    refine (applyLoop_invariant
              (fun x => delivered (applyCtx w) `prefix_of` delivered (applyCtx x))
              typeMap _ _ _ _ Hrun' _);
      [|reflexivity].
    intros ev env w0 w1 Hs Hpre.
    apply applyStep_delivered in Hs as [[-> _]|(q & d & -> & _)]; [exact Hpre|].
    etrans; [exact Hpre|]. apply prefix_app_r. reflexivity.
Qed.


End Kept.

Lemma relation_cache_last_write_wins_witness :
  match applyLoop (pgx := quotingPgx) (repl := tableRepl committedTable)
          digitMap committedTrace (initWorld 0) with
  | Done w =>
      relationsV2 w = fold_left (cacheStep (repl := tableRepl committedTable)) (decoded w) ∅
  | _ => False
  end.
Proof.
  destruct (applyLoop (pgx := quotingPgx) (repl := tableRepl committedTable)
              digitMap committedTrace (initWorld 0)) as [w| |] eqn:E.
  - apply (proj1 (relation_cache_last_write_wins _ _ _ _ E)).
  - vm_compute in E. discriminate E.
  - vm_compute in E. discriminate E.
Defined.

Lemma queued_queries_conserved_witness :
  match applyLoop (pgx := quotingPgx) (repl := tableRepl committedTable)
          digitMap committedTrace (initWorld 0) with
  | Done w =>
      length (delivered (applyCtx w))
      = length (filter (isInsertV2 (repl := tableRepl committedTable)) (decoded w))
  | _ => False
  end.
Proof.
  destruct (applyLoop (pgx := quotingPgx) (repl := tableRepl committedTable)
              digitMap committedTrace (initWorld 0)) as [w| |] eqn:E.
  - apply (proj1 (queued_queries_conserved _ _ _ _ E)).
  - vm_compute in E. discriminate E.
  - vm_compute in E. discriminate E.
Defined.


(** ** Commit, timer and flush together *)

Section Policy.
Context {Native : Type} {pgx : Pgx} {repl : Pglogrepl}.

#[local] Abbreviation World := (World Native).
#[local] Abbreviation applyContext := (applyContext Native).

(** X10. After a commit has been handled the pending batch is either
    empty or has a flush scheduled: the timer is running for two
    seconds.  The open-transaction flag is cleared. *)
Theorem commit_leaves_nothing_unscheduled env typeMap c (w w' : World) :
  switchV2 env typeMap (MCommit c) w = Done w' ->
  (batch (applyCtx w') = [] \/ timer (applyCtx w') = TimerActive (2 * Second))
  /\ txnInProgress (applyCtx w') = false.
Proof.
  cbn. intros Hs. apply obind_Done in Hs as ([a' l] & Hc & Hs). done_inv. cbn.
  unfold commit, flush in Hc. cbn in Hc.
  repeat case_match; try discriminate; done_inv; cbn; auto.
  destruct (batch (applyCtx w)); [auto|discriminate].
Qed.

(** X11. While every buffer arrives within two seconds of
    [lastCommitTime] and the timer does not fire, nothing is sent to the
    target store: commits only restart the timer, and the queries of all
    these transactions stay in the one pending batch. *)
Theorem nothing_sent_within_threshold typeMap evs (w w' : World) :
  Forall (fun e => exists walData, fst e = WalDataCh walData
                   /\ now (snd e) - lastCommitTime (applyCtx w) <= 2 * Second) evs ->
  applyLoop typeMap evs w = Done w' ->
  conn (applyCtx w') = conn (applyCtx w)
  /\ lastCommitTime (applyCtx w') = lastCommitTime (applyCtx w)
  /\ batch (applyCtx w) `prefix_of` batch (applyCtx w').
Proof.
  revert w. induction evs as [|[ev env] evs IH]; intros w Hall Hs; cbn in Hs.
  - done_inv. repeat split; reflexivity.
  - apply Forall_cons in Hall as [(walData & Hev & Hnow) Hall]. cbn in Hev, Hnow.
    subst ev. apply obind_Done in Hs as (w1 & Hs1 & Hs).
    assert (conn (applyCtx w1) = conn (applyCtx w)
            /\ lastCommitTime (applyCtx w1) = lastCommitTime (applyCtx w)
            /\ batch (applyCtx w) `prefix_of` batch (applyCtx w1)) as (Hc & Hl & Hb).
    { cbn in Hs1. rewrite v2_true in Hs1.
      apply processV2_Done in Hs1 as (m & _ & Hs1).
      destruct m; cbn in Hs1; done_inv; cbn; try (repeat split; reflexivity).
      - apply obind_Done in Hs1 as ([a' l] & Hcm & Hs1). done_inv. cbn.
        unfold commit in Hcm. rewrite Since_threshold in Hcm. cbn in Hcm.
        apply Z.ltb_ge in Hnow. rewrite Hnow in Hcm. done_inv. cbn.
        repeat split; reflexivity.
      - case_match; [|discriminate].
        apply obind_Done in Hs1 as (qv & _ & Hs1). done_inv. cbn.
        repeat split; try reflexivity. apply prefix_app_r. reflexivity. }
    rewrite <- Hl in Hall. destruct (IH w1 Hall Hs) as (Hc' & Hl' & Hb').
    repeat split; [congruence|congruence|]. etrans; eassumption.
Qed.

(** X12. [begin]'s [Stop] leaves a tick that is already in the timer's
    channel where it is.  After a begin handled with such a tick
    pending, the timer is idle and the transaction open, and the next
    timer turn still runs [flush]: with a non-empty batch and a
    succeeding [SendBatch] the target store executes the batch and its
    origin write while the transaction is open. *)
Theorem stale_tick_survives_begin env typeMap finalLSN commitTs xid (w w1 : World) :
  timerC (applyCtx w) = true ->
  switchV2 env typeMap (MBegin finalLSN commitTs xid) w = Done w1 ->
  timer (applyCtx w1) = TimerIdle
  /\ timerC (applyCtx w1) = true
  /\ txnInProgress (applyCtx w1) = true
  /\ forall env2,
       batch (applyCtx w) <> [] -> sendBatchErr env2 = None ->
       exists w2,
         applyStep typeMap TimerC env2 w1 = Done w2
         /\ conn (applyCtx w2)
            = conn (applyCtx w)
              ++ [batch (applyCtx w)
                  ++ [originAck (commitLSN (applyCtx w)) (commitTime (applyCtx w))]]
         /\ batch (applyCtx w2) = []
         /\ txnInProgress (applyCtx w2) = true
         /\ timerC (applyCtx w2) = false.
Proof.
  intros Htick Hs. cbn in Hs. done_inv. cbn.
  split; [reflexivity|]. split; [exact Htick|]. split; [reflexivity|].
  intros env2 Hne Hok. rewrite Htick. unfold flush. cbn.
  destruct (batch (applyCtx w)) as [|q qs]; [contradiction|]. cbn.
  rewrite Hok. cbn. eexists. split; [reflexivity|]. cbn. repeat split; reflexivity.
Qed.

(** X13. How a decoded message is applied does not depend on the
    streaming flag: the flag is only passed to the decoder, so the
    inserts of a streamed transaction are queued into the same batch as
    any other insert. *)
Theorem switchV2_ignores_inStream env typeMap (m : Message) (w : World) (b : bool) :
  switchV2 env typeMap m (withInStream b w)
  = (do w' <- switchV2 env typeMap m w;
     Done (withInStream
             match m with
             | MStreamStartV2 _ _ => true
             | MStreamStopV2 => false
             | _ => b
             end w')).
Proof.
  destruct m; cbn; try reflexivity.
  - destruct (commit env (CommitLSN m) (CommitTime m) (applyCtx w)); reflexivity.
  - destruct (relationsV2 w !! InsertRelationID (InsertV2 m)); [|reflexivity].
    destruct (buildInsertV2 typeMap (RelationV2 r) (Tuple (InsertV2 m))); reflexivity.
Qed.

End Policy.

Lemma commit_leaves_nothing_unscheduled_witness :
  match switchV2 (pgx := quotingPgx) (quietEnv Second) digitMap
          (MCommit {| CommitFlags := 0; CommitLSN := 100; TransactionEndLSN := 101;
                      CommitTime := 50 |})
          (withApplyCtx (queue "q" [] (begin (applyCtx (initWorld 0)))) (initWorld 0)) with
  | Done w' => timer (applyCtx w') = TimerActive (2 * Second)
  | _ => False
  end.
Proof.
  destruct (switchV2 (pgx := quotingPgx) (quietEnv Second) digitMap
              (MCommit {| CommitFlags := 0; CommitLSN := 100; TransactionEndLSN := 101;
                          CommitTime := 50 |})
              (withApplyCtx (queue "q" [] (begin (applyCtx (initWorld 0)))) (initWorld 0)))
    as [w'| |] eqn:E.
  - destruct (commit_leaves_nothing_unscheduled _ _ _ _ _ E) as [[Hb|Ht] _]; [|exact Ht].
    vm_compute in E. injection E as <-. discriminate Hb.
  - vm_compute in E. discriminate E.
  - vm_compute in E. discriminate E.
Defined.

Lemma nothing_sent_within_threshold_witness :
  match applyLoop (pgx := quotingPgx) (repl := tableRepl committedTable)
          digitMap committedTrace (initWorld 0) with
  | Done w' => conn (applyCtx w') = [] /\ lastCommitTime (applyCtx w') = 0
  | _ => False
  end.
Proof.
  destruct (applyLoop (pgx := quotingPgx) (repl := tableRepl committedTable)
              digitMap committedTrace (initWorld 0)) as [w'| |] eqn:E.
  - assert (Forall (fun e => exists walData, fst e = WalDataCh walData
                      /\ now (snd e) - lastCommitTime (applyCtx (initWorld (Native := Z) 0))
                         <= 2 * Second) committedTrace) as Hall.
    { unfold committedTrace.
      repeat (apply Forall_cons; split;
              [eexists; split; [reflexivity|cbn; unfold Second; lia]|]).
      constructor. }
    destruct (nothing_sent_within_threshold _ _ _ _ Hall E) as (Hc & Hl & _).
    split; assumption.
  - vm_compute in E. discriminate E.
  - vm_compute in E. discriminate E.
Defined.

Lemma stale_tick_survives_begin_witness :
  match applyLoop (pgx := quotingPgx) (repl := tableRepl beginTable) digitMap
          [ (TimerExpires, quietEnv (2 * Second));
            (WalDataCh ["000"%byte], quietEnv (2 * Second));
            (TimerC, quietEnv (2 * Second)) ]
          (withApplyCtx (queue "q" [] (applyCtx (initWorld 0))) (initWorld 0)) with
  | Done w2 =>
      conn (applyCtx w2) = [[ {| SQL := "q"; Arguments := [] |}; originAck 0 zeroTime ]]
      /\ txnInProgress (applyCtx w2) = true
  | _ => False
  end.
Proof.
  assert (exists w0 w1 : World Z,
            applyStep (pgx := quotingPgx) (repl := tableRepl beginTable) digitMap
              TimerExpires (quietEnv (2 * Second))
              (withApplyCtx (queue "q" [] (applyCtx (initWorld 0))) (initWorld 0)) = Done w0
            /\ timerC (applyCtx w0) = true
            /\ batch (applyCtx w0) = [ {| SQL := "q"; Arguments := [] |} ]
            /\ conn (applyCtx w0) = []
            /\ commitLSN (applyCtx w0) = 0 /\ commitTime (applyCtx w0) = zeroTime
            /\ switchV2 (pgx := quotingPgx) (quietEnv (2 * Second)) digitMap
                 (MBegin 0 0 3) (noteDecode ["000"%byte] w0) = Done w1)
    as (w0 & w1 & H0 & Htick & Hb & Hc & Hl & Ht & H1).
  { do 2 eexists. split; [reflexivity|]. cbn. repeat split; reflexivity. }
  destruct (stale_tick_survives_begin (repl := tableRepl beginTable)
              _ _ _ _ _ (noteDecode ["000"%byte] w0) w1 Htick H1)
    as (_ & _ & _ & Hflush).
  destruct (Hflush (quietEnv (2 * Second))) as (w2 & H2 & Hconn & _ & Htx & _).
  { cbn. rewrite Hb. discriminate. }
  { reflexivity. }
  cbn [applyLoop]. rewrite H0. cbn [obind].
  change (applyStep (pgx := quotingPgx) (repl := tableRepl beginTable) digitMap
            (WalDataCh ["000"%byte]) (quietEnv (2 * Second)) w0)
    with (switchV2 (pgx := quotingPgx) (quietEnv (2 * Second)) digitMap
            (MBegin 0 0 3) (noteDecode ["000"%byte] w0)).
  rewrite H1. cbn [obind]. rewrite H2. cbn [obind].
  split; [|exact Htx]. rewrite Hconn. cbn. rewrite Hc, Hb, Hl, Ht. reflexivity.
Defined.

(** ** The receive loop *)

Lemma StronglySorted_snoc (l : list Z) (x : Z) :
  StronglySorted Z.le l -> Forall (fun u => u <= x) l ->
  StronglySorted Z.le (l ++ [x]).
Proof.
  induction 1 as [|a l Hs IH Ha]; intros Hall; cbn.
  - repeat constructor.
  - apply Forall_cons in Hall as [Hax Hall]. constructor; [apply IH; exact Hall|].
    apply Forall_app. split; [exact Ha|]. constructor; [exact Hax|constructor].
Qed.

Section Reporting.
Context {Native : Type} {repl : Pglogrepl}.

#[local] Abbreviation Consumer := (Consumer Native).

(** What one iteration does besides moving the position: a status
    update is sent exactly when the clock is past the deadline, and it
    reports the position tracked at that moment; the change buffer of a
    data message, and nothing else, goes on the channel. *)
Lemma mainLoopIteration_sends env (c c' : Consumer) :
  mainLoopIteration env c = Done c' ->
  statusUpdates c'
  = statusUpdates c
    ++ (if nextStandbyMessageDeadline c <? loopNow env then [clientXLogPos c] else [])
  /\ walDataCh c' = walDataCh c ++ forwarded env
  /\ ((nextStandbyMessageDeadline c <? loopNow env) = true -> sendStatusErr env = None).
Proof.
  unfold mainLoopIteration. intros Hs.
  apply obind_Done in Hs as (c1 & Hst & Hs).
  assert (statusUpdates c1
          = statusUpdates c
            ++ (if nextStandbyMessageDeadline c <? loopNow env
                then [clientXLogPos c] else [])
          /\ walDataCh c1 = walDataCh c
          /\ ((nextStandbyMessageDeadline c <? loopNow env) = true ->
              sendStatusErr env = None)) as (Hu & Hw & He).
  { unfold standbyStatus in Hst.
    destruct (nextStandbyMessageDeadline c <? loopNow env).
    - destruct (sendStatusErr env); [discriminate|]. done_inv. cbn. auto.
    - done_inv. rewrite app_nil_r. repeat split. discriminate. }
  rewrite <- Hu, <- Hw. split; [|split; [|exact He]].
  - destruct (received env) as [| |[e|data|t]]; try discriminate; done_inv;
      try reflexivity.
    unfold onCopyData in Hs. repeat case_match; try discriminate; done_inv; reflexivity.
  - unfold forwarded.
    destruct (received env) as [| |[e|data|t]]; try discriminate; done_inv;
      try (cbn; rewrite app_nil_r; reflexivity).
    unfold onCopyData in Hs. destruct data as [|tag payload]; [discriminate|].
    destruct (Byte.eqb tag PrimaryKeepaliveMessageByteID).
    + destruct (ParsePrimaryKeepaliveMessage payload); [|discriminate Hs].
      done_inv. cbn. rewrite app_nil_r. reflexivity.
    + destruct (Byte.eqb tag XLogDataByteID).
      * destruct (ParseXLogData payload); [|discriminate Hs].
        done_inv. reflexivity.
      * done_inv. rewrite app_nil_r. reflexivity.
Qed.

Lemma mainLoop_invariant (P : Consumer -> Prop) :
  (forall env c c', mainLoopIteration env c = Done c' -> P c -> P c') ->
  forall envs c k ck, mainLoop envs c !! k = Some ck -> P c -> P ck.
Proof.
  intros Hstep envs. induction envs as [|env envs IH]; intros c k ck Hk Hc; cbn in Hk.
  - destruct k as [|k]; cbn in Hk; [|try rewrite lookup_nil in Hk; discriminate].
    injection Hk as <-. exact Hc.
  - destruct (mainLoopIteration env c) as [c'| |] eqn:Hs.
    + destruct k as [|k]; cbn in Hk; [injection Hk as <-; exact Hc|].
      eapply IH; eauto.
    + destruct k as [|k]; cbn in Hk; [|try rewrite lookup_nil in Hk; discriminate].
      injection Hk as <-. exact Hc.
    + destruct k as [|k]; cbn in Hk; [|try rewrite lookup_nil in Hk; discriminate].
      injection Hk as <-. exact Hc.
Qed.

(** X14. The positions reported to the server never go back: in every
    state of a run that starts at position [xlogpos], the status updates
    sent so far are in non-decreasing order, none is below [xlogpos] and
    none is above the position tracked now. *)
Theorem status_updates_never_go_back envs xlogpos started k (ck : Consumer) :
  mainLoop envs (initConsumer xlogpos started) !! k = Some ck ->
  StronglySorted Z.le (statusUpdates ck)
  /\ Forall (fun u => xlogpos <= u <= clientXLogPos ck) (statusUpdates ck).
Proof.
  intros Hk.
  refine (proj2 (mainLoop_invariant
            (fun c => xlogpos <= clientXLogPos c
                      /\ StronglySorted Z.le (statusUpdates c)
                      /\ Forall (fun u => xlogpos <= u <= clientXLogPos c) (statusUpdates c))
            _ envs _ k ck Hk _)).
  - intros env c c' Hs (Hp & Hso & Hall).
    pose proof (mainLoopIteration_le _ _ _ Hs) as Hle.
    apply mainLoopIteration_sends in Hs as (Hu & _). rewrite Hu.
    split; [lia|].
    destruct (nextStandbyMessageDeadline c <? loopNow env).
    + split.
      * apply StronglySorted_snoc; [exact Hso|].
        eapply Forall_impl; [exact Hall|]. cbn. intros u Hu'. lia.
      * apply Forall_app. split.
        -- eapply Forall_impl; [exact Hall|]. cbn. intros u Hu'. lia.
        -- constructor; [lia|constructor].
    + rewrite app_nil_r. split; [exact Hso|].
      eapply Forall_impl; [exact Hall|]. cbn. intros u Hu'. lia.
  - cbn. split; [lia|]. split; constructor.
Qed.

(** X15. The change buffers go on the channel unchanged, in the order
    received and each once: after [k] iterations the channel holds what
    it held before followed by the buffers of the data messages of those
    iterations. *)
Theorem buffers_forwarded_in_order envs : forall (c ck : Consumer) k,
  mainLoop envs c !! k = Some ck ->
  walDataCh ck = walDataCh c ++ concat (map forwarded (take k envs)).
Proof.
  induction envs as [|env envs IH]; intros c ck k Hk; cbn in Hk.
  - destruct k as [|k]; cbn in Hk; [|try rewrite lookup_nil in Hk; discriminate].
    injection Hk as <-. cbn. rewrite app_nil_r. reflexivity.
  - destruct k as [|k].
    + assert (ck = c) as ->.
      { destruct (mainLoopIteration env c); cbn in Hk; congruence. }
      cbn. rewrite app_nil_r. reflexivity.
    + destruct (mainLoopIteration env c) as [c'| |] eqn:Hs; cbn in Hk;
        try (try rewrite lookup_nil in Hk; discriminate Hk).
      apply IH in Hk. apply mainLoopIteration_sends in Hs as (_ & Hw & _).
      rewrite Hk, Hw. cbn. rewrite app_assoc. reflexivity.
Qed.

(** X16. A keepalive that asks for a reply sets the deadline to the zero
    instant, so the next iteration that returns sends a status update
    first, reporting the position as the keepalive left it. *)
Theorem reply_requested_forces_status_update env1 env2 (c c1 c2 : Consumer) payload pkm :
  received env1 = RecvMessage (CopyData (PrimaryKeepaliveMessageByteID :: payload)) ->
  ParsePrimaryKeepaliveMessage payload = inl pkm ->
  ReplyRequested pkm = true ->
  mainLoopIteration env1 c = Done c1 ->
  zeroTime < loopNow env2 ->
  mainLoopIteration env2 c1 = Done c2 ->
  nextStandbyMessageDeadline c1 = zeroTime
  /\ statusUpdates c2 = statusUpdates c1 ++ [clientXLogPos c1]
  /\ sendStatusErr env2 = None.
Proof.
  intros Hr Hp Hreq Hs1 Hnow Hs2.
  assert (nextStandbyMessageDeadline c1 = zeroTime) as Hd.
  { unfold mainLoopIteration in Hs1.
    apply obind_Done in Hs1 as (c0 & _ & Hs1). rewrite Hr in Hs1. cbn in Hs1.
    assert (Byte.eqb PrimaryKeepaliveMessageByteID PrimaryKeepaliveMessageByteID = true)
      as Hk by (apply Byte.byte_dec_lb; reflexivity).
    rewrite Hk, Hp in Hs1. done_inv. cbn. rewrite Hreq. reflexivity. }
  split; [exact Hd|].
  apply mainLoopIteration_sends in Hs2 as (Hu & _ & He).
  rewrite Hd in Hu, He. apply Z.ltb_lt in Hnow. rewrite Hnow in Hu, He.
  split; [exact Hu|apply He; reflexivity].
Qed.

End Reporting.

Lemma status_updates_never_go_back_witness :
  match mainLoop (Native := Z) (repl := tableRepl []) replyThenData (initConsumer 40 0)
        !! 2%nat with
  | Some ck =>
      StronglySorted Z.le (statusUpdates ck)
      /\ Forall (fun u => 40 <= u <= clientXLogPos ck) (statusUpdates ck)
      /\ statusUpdates ck = [40]
  | None => False
  end.
Proof.
  destruct (mainLoop (Native := Z) (repl := tableRepl []) replyThenData (initConsumer 40 0)
            !! 2%nat) as [ck|] eqn:E.
  - destruct (status_updates_never_go_back _ _ _ _ _ E) as [Hs Hall].
    split; [exact Hs|]. split; [exact Hall|].
    vm_compute in E. injection E as <-. reflexivity.
  - vm_compute in E. discriminate E.
Defined.

Lemma buffers_forwarded_in_order_witness :
  match mainLoop (Native := Z) (repl := tableRepl []) replyThenData (initConsumer 40 0)
        !! 2%nat with
  | Some ck => walDataCh ck = [["001"%byte]]
  | None => False
  end.
Proof.
  destruct (mainLoop (Native := Z) (repl := tableRepl []) replyThenData (initConsumer 40 0)
            !! 2%nat) as [ck|] eqn:E.
  - rewrite (buffers_forwarded_in_order _ _ _ _ E). reflexivity.
  - vm_compute in E. discriminate E.
Defined.

Lemma reply_requested_forces_status_update_witness :
  exists c1 c2 : Consumer Z,
    nextStandbyMessageDeadline c1 = zeroTime
    /\ statusUpdates c2 = statusUpdates c1 ++ [clientXLogPos c1]
    /\ clientXLogPos c1 = 40.
Proof.
  destruct (mainLoopIteration (Native := Z) (repl := tableRepl [])
              (receiving ["k"%byte; "007"%byte; "001"%byte]) (initConsumer 40 0))
    as [c1| |] eqn:E1; [|vm_compute in E1; discriminate E1..].
  destruct (mainLoopIteration (Native := Z) (repl := tableRepl [])
              {| loopNow := 5; sendStatusErr := None; afterStatus := 6;
                 received := RecvMessage (CopyData ["w"%byte; "050"%byte; "001"%byte]) |}
              c1)
    as [c2| |] eqn:E2;
    [|vm_compute in E1; injection E1 as <-; vm_compute in E2; discriminate E2..].
  exists c1, c2.
  assert (zeroTime < 5) as Hnow by (vm_compute; reflexivity).
  destruct (reply_requested_forces_status_update (repl := tableRepl [])
              (receiving ["k"%byte; "007"%byte; "001"%byte])
              {| loopNow := 5; sendStatusErr := None; afterStatus := 6;
                 received := RecvMessage (CopyData ["w"%byte; "050"%byte; "001"%byte]) |}
              (initConsumer 40 0) c1 c2 ["007"%byte; "001"%byte]
              {| ServerWALEnd := 7; ServerTime := 0; ReplyRequested := true |}
              eq_refl eq_refl eq_refl E1 Hnow E2)
    as (Hd & Hu & _).
  split; [exact Hd|]. split; [exact Hu|].
  vm_compute in E1. injection E1 as <-. reflexivity.
Defined.

(** ** Setting up the replication origin *)

(** X17. [createReplicationOrigin] creates the origin exactly when the
    lookup reports no rows.  It returns no error exactly when the session
    setup was sent and succeeded.  A lookup that fails in any other way
    is not reported: the session setup is sent as if a row had been
    found. *)
Theorem origin_created_only_when_missing (env : OriginEnv) (name : string) :
  (In (createOriginQuery, name) (snd (createReplicationOrigin env name))
   <-> scanResult env = ScanErrNoRows)
  /\ (fst (createReplicationOrigin env name) = None
      <-> In (setupOriginQuery, name) (snd (createReplicationOrigin env name))
          /\ setupResult env = None)
  /\ (forall err, scanResult env = ScanOtherError err ->
        createReplicationOrigin env name
        = (setupResult env, [(selectOriginQuery, name); (setupOriginQuery, name)])).
Proof.
  unfold createReplicationOrigin.
  destruct (scanResult env) as [| |e] eqn:Hscan;
    destruct (createResult env) as [ce|] eqn:Hcr; cbn;
    (split; [|split]); try (intros err Herr; first [discriminate Herr|reflexivity]);
    split; intros H;
    repeat match goal with
    | H : _ /\ _ |- _ => destruct H
    | H : _ \/ _ |- _ => destruct H
    | H : False |- _ => contradiction
    | H : (_, _) = (_, _) |- _ => injection H as H; try discriminate H
    | H : Some _ = None |- _ => discriminate H
    | H : ScanRow = ScanErrNoRows |- _ => discriminate H
    | H : ScanOtherError _ = ScanErrNoRows |- _ => discriminate H
    end;
    auto 6.
Qed.

Lemma origin_created_only_when_missing_witness :
  createReplicationOrigin
    {| scanResult := ScanOtherError "number of field descriptions must equal number of destinations";
       createResult := None; setupResult := None |} "pglogrepl_demo"
  = (None, [(selectOriginQuery, "pglogrepl_demo"); (setupOriginQuery, "pglogrepl_demo")]).
Proof.
  apply (proj2 (proj2 (origin_created_only_when_missing
                         {| scanResult := ScanOtherError "number of field descriptions must equal number of destinations";
                            createResult := None; setupResult := None |}
                         "pglogrepl_demo"))
           "number of field descriptions must equal number of destinations" eq_refl).
Defined.

(** ** A commit and the batch it closes *)

Section CommitDelivers.
Context {Native : Type} {pgx : Pgx} {repl : Pglogrepl}.

#[local] Abbreviation World := (World Native).

Lemma switchV2_open env typeMap (m : Message) (w w' : World) :
  switchV2 env typeMap m w = Done w' ->
  txnInProgress (applyCtx w) = true ->
  (exists c, m = MCommit c)
  \/ (conn (applyCtx w') = conn (applyCtx w)
      /\ timerC (applyCtx w') = timerC (applyCtx w)
      /\ txnInProgress (applyCtx w') = true).
Proof.
  destruct m; cbn; intros Hs Htx; done_inv; cbn; eauto.
  right. case_match; [|discriminate].
  apply obind_Done in Hs as (qv & _ & Hs). done_inv. cbn. auto.
Qed.

(** X8. While a begin waits for its commit and no tick is left in the
    timer's channel, nothing makes the target store execute anything
    until a commit is decoded: the timer is idle, so no tick arrives,
    timer turns find nothing to receive, and no other message sends.
    The channel stays empty and the transaction open. *)
Theorem open_transaction_sends_only_at_commit typeMap evs startup ev env (w w' : World) :
  applyLoop typeMap evs (initWorld startup) = Done w ->
  txnInProgress (applyCtx w) = true ->
  timerC (applyCtx w) = false ->
  applyStep typeMap ev env w = Done w' ->
  (exists walData c,
     ev = WalDataCh walData /\ ParseV2 walData (inStream w) = inl (MCommit c))
  \/ (conn (applyCtx w') = conn (applyCtx w)
      /\ timerC (applyCtx w') = false
      /\ txnInProgress (applyCtx w') = true).
Proof.
  intros Hrun Htx Htick Hs.
  pose proof (applyLoop_Consistent _ _ _ _ Hrun (initWorld_Consistent startup)) as Hw.
  destruct ev as [|walData|].
  - right. apply applyStep_timer_turn in Hs as [[_ ->]|(Hyes & _)]; [auto|congruence].
  - cbn in Hs. rewrite v2_true in Hs.
    apply processV2_Done in Hs as (m & Hp & Hs).
    apply switchV2_open in Hs as [[c ->]|(Hc & Ht & Hx)]; [eauto| |exact Htx].
    right. cbn in Hc, Ht. rewrite Ht. auto.
  - right. cbn in Hs. destruct (timer (applyCtx w)) eqn:Ht; [injection Hs as <-; auto|].
    pose proof (timer_ok _ Hw) as Hok. rewrite Ht, Htx in Hok.
    assert (true = false) as Habs by (apply Hok; discriminate).
    discriminate Habs.
Qed.


End CommitDelivers.

Lemma open_transaction_sends_only_at_commit_witness :
  match applyLoop (pgx := quotingPgx) (repl := tableRepl beginTable)
          digitMap beginTrace (initWorld 0) with
  | Done w =>
      forall w',
        applyStep (pgx := quotingPgx) (repl := tableRepl beginTable)
          digitMap TimerC (quietEnv (2 * Second)) w = Done w' ->
        conn (applyCtx w') = conn (applyCtx w)
  | _ => False
  end.
Proof.
  destruct (applyLoop (pgx := quotingPgx) (repl := tableRepl beginTable)
              digitMap beginTrace (initWorld 0)) as [w| |] eqn:E.
  - intros w' Hs.
    assert (txnInProgress (applyCtx w) = true /\ timerC (applyCtx w) = false)
      as [Htx Htick].
    { vm_compute in E. injection E as <-. split; reflexivity. }
    destruct (open_transaction_sends_only_at_commit _ _ _ _ _ _ _ E Htx Htick Hs)
      as [(walData & c & Hev & _)|(Hc & _)]; [discriminate Hev|exact Hc].
  - vm_compute in E. discriminate E.
  - vm_compute in E. discriminate E.
Defined.


(** ** Row changes other than inserts, and columns that do not decode *)

Section OtherRowChanges.
Context {Native : Type} {pgx : Pgx} {repl : Pglogrepl}.

#[local] Abbreviation World := (World Native).

(** X18. An update, delete or truncate is only logged, in both protocol
    paths: the call returns normally whatever the relation caches hold,
    writes one line to the log (in version 1, the line naming the
    message type), and leaves both caches, the apply context and the
    streaming flag as they were. *)
Theorem row_changes_other_than_insert_only_logged env typeMap walData (w : World) m :
  (ParseV2 walData (inStream w) = inl m ->
   match m with
   | MUpdateV2 _ _ _ | MDeleteV2 _ _ | MTruncateV2 _ _ => True
   | _ => False
   end ->
   exists w' line,
     processV2 env typeMap walData w = Done w'
     /\ relations w' = relations w
     /\ relationsV2 w' = relationsV2 w
     /\ applyCtx w' = applyCtx w
     /\ inStream w' = inStream w
     /\ logged w' = logged w ++ [line])
  /\ (Parse walData = inl m ->
      match m with
      | MUpdate _ _ | MDelete _ | MTruncate _ => True
      | _ => False
      end ->
      exists w',
        processV1 typeMap walData w = Done w'
        /\ relations w' = relations w
        /\ relationsV2 w' = relationsV2 w
        /\ applyCtx w' = applyCtx w
        /\ inStream w' = inStream w
        /\ logged w'
           = logged w ++ [Printf "Receive a logical replication message: %s"
                            [LStr (messageTypeName m)]]).
Proof.
  split.
  - intros Hp Hm. unfold processV2. rewrite Hp.
    destruct m; try contradiction; cbn; do 2 eexists; (split; [reflexivity|]);
      cbn; repeat split; reflexivity.
  - intros Hp Hm. unfold processV1. rewrite Hp.
    destruct m; try contradiction; cbn; eexists; (split; [reflexivity|]);
      cbn; repeat split; reflexivity.
Qed.

Lemma insertColumnsV2_first_failure typeMap rel cols :
  forall idx query (vals : list (any Native)) i col rc err,
  cols !! i = Some col -> Columns rel !! (idx + i)%nat = Some rc ->
  colDataType col = "t"%byte ->
  decodeTextColumnData typeMap (Data col) (DataType rc) = inr err ->
  (forall j c r,
     (j < i)%nat -> cols !! j = Some c -> Columns rel !! (idx + j)%nat = Some r ->
     colDataType c = "t"%byte ->
     exists v, decodeTextColumnData typeMap (Data c) (DataType r) = inl v) ->
  insertColumnsV2 typeMap rel cols idx query vals
  = Fatal (Printf "error decoding column data: %v" [LErr err]).
Proof.
  induction cols as [|c0 rest IH]; intros idx query vals i col rc err Hc Hr Ht Hd Hbefore;
    [discriminate Hc|].
  destruct i as [|i].
  - injection Hc as ->. rewrite Nat.add_0_r in Hr. cbn. rewrite Hr, Ht. cbn.
    rewrite Hd. reflexivity.
  - cbn in Hc.
    assert (is_Some (Columns rel !! idx)) as [r0 Hr0].
    { apply lookup_lt_is_Some. apply lookup_lt_Some in Hr. lia. }
    assert (forall q v,
              insertColumnsV2 typeMap rel rest (S idx) q v
              = Fatal (Printf "error decoding column data: %v" [LErr err])) as Hrest.
    { intros q v. apply (IH (S idx) q v i col rc err Hc); [|exact Ht|exact Hd|].
      - replace (S idx + i)%nat with (idx + S i)%nat by lia. exact Hr.
      - intros j c r Hj Hcj Hrj. apply (Hbefore (S j)); [lia|exact Hcj|].
        replace (idx + S j)%nat with (S idx + j)%nat by lia. exact Hrj. }
    cbn. rewrite Hr0.
    destruct (Byte.eqb (colDataType c0) "n"); [apply Hrest|].
    destruct (Byte.eqb (colDataType c0) "u"); [apply Hrest|].
    destruct (Byte.eqb (colDataType c0) "t") eqn:Ht0; [|apply Hrest].
    destruct (Hbefore 0%nat c0 r0) as [v Hv]; [lia|reflexivity| | |].
    + rewrite Nat.add_0_r. exact Hr0.
    + apply Byte.byte_dec_bl. exact Ht0.
    + rewrite Hv. apply Hrest.
Qed.

Lemma insertValuesV1_first_failure typeMap rel cols :
  forall idx (values : gmap string (any Native)) i col rc err,
  cols !! i = Some col -> Columns rel !! (idx + i)%nat = Some rc ->
  colDataType col = "t"%byte ->
  decodeTextColumnData typeMap (Data col) (DataType rc) = inr err ->
  (forall j c r,
     (j < i)%nat -> cols !! j = Some c -> Columns rel !! (idx + j)%nat = Some r ->
     colDataType c = "t"%byte ->
     exists v, decodeTextColumnData typeMap (Data c) (DataType r) = inl v) ->
  insertValuesV1 typeMap rel cols idx values
  = Fatal (Printf "error decoding column data: %v" [LErr err]).
Proof.
  induction cols as [|c0 rest IH]; intros idx values i col rc err Hc Hr Ht Hd Hbefore;
    [discriminate Hc|].
  destruct i as [|i].
  - injection Hc as ->. rewrite Nat.add_0_r in Hr. cbn. rewrite Hr, Ht. cbn.
    rewrite Hd. reflexivity.
  - cbn in Hc.
    assert (is_Some (Columns rel !! idx)) as [r0 Hr0].
    { apply lookup_lt_is_Some. apply lookup_lt_Some in Hr. lia. }
    assert (forall v,
              insertValuesV1 typeMap rel rest (S idx) v
              = Fatal (Printf "error decoding column data: %v" [LErr err])) as Hrest.
    { intros v. apply (IH (S idx) v i col rc err Hc); [|exact Ht|exact Hd|].
      - replace (S idx + i)%nat with (idx + S i)%nat by lia. exact Hr.
      - intros j c r Hj Hcj Hrj. apply (Hbefore (S j)); [lia|exact Hcj|].
        replace (idx + S j)%nat with (S idx + j)%nat by lia. exact Hrj. }
    cbn. rewrite Hr0.
    destruct (Byte.eqb (colDataType c0) "n"); [apply Hrest|].
    destruct (Byte.eqb (colDataType c0) "u"); [apply Hrest|].
    destruct (Byte.eqb (colDataType c0) "t") eqn:Ht0; [|apply Hrest].
    destruct (Hbefore 0%nat c0 r0) as [v Hv]; [lia|reflexivity| | |].
    + rewrite Nat.add_0_r. exact Hr0.
    + apply Byte.byte_dec_bl. exact Ht0.
    + rewrite Hv. apply Hrest.
Qed.

(** X19. An insert for a cached relation ends the process at the first
    text column that does not decode, with that column's error, in both
    protocol paths and whatever the width of the tuple: when column [i]
    lies within the relation's columns, is a text column whose value
    does not decode, and every text column before it decodes, the call
    is fatal with the error of column [i]. *)
Theorem first_undecodable_column_is_fatal env typeMap (w : World) i col rc err :
  colDataType col = "t"%byte ->
  decodeTextColumnData typeMap (Data col) (DataType rc) = inr err ->
  (forall (m : InsertMessageV2) rel,
     relationsV2 w !! InsertRelationID (InsertV2 m) = Some rel ->
     TupleColumns (Tuple (InsertV2 m)) !! i = Some col ->
     Columns (RelationV2 rel) !! i = Some rc ->
     (forall j c r,
        (j < i)%nat ->
        TupleColumns (Tuple (InsertV2 m)) !! j = Some c ->
        Columns (RelationV2 rel) !! j = Some r ->
        colDataType c = "t"%byte ->
        exists v, decodeTextColumnData typeMap (Data c) (DataType r) = inl v) ->
     switchV2 env typeMap (MInsertV2 m) w
     = Fatal (Printf "error decoding column data: %v" [LErr err]))
  /\ (forall (m : InsertMessage) rel,
        relations w !! InsertRelationID m = Some rel ->
        TupleColumns (Tuple m) !! i = Some col ->
        Columns rel !! i = Some rc ->
        (forall j c r,
           (j < i)%nat ->
           TupleColumns (Tuple m) !! j = Some c ->
           Columns rel !! j = Some r ->
           colDataType c = "t"%byte ->
           exists v, decodeTextColumnData typeMap (Data c) (DataType r) = inl v) ->
        switchV1 typeMap (MInsert m) w
        = Fatal (Printf "error decoding column data: %v" [LErr err])).
Proof.
  intros Ht Hd. split.
  - intros m rel Hrel Hc Hr Hbefore. cbn. rewrite Hrel. unfold buildInsertV2.
    erewrite insertColumnsV2_first_failure; [reflexivity|exact Hc|exact Hr|exact Ht|exact Hd|].
    exact Hbefore.
  - intros m rel Hrel Hc Hr Hbefore. cbn. rewrite Hrel.
    erewrite insertValuesV1_first_failure; [reflexivity|exact Hc|exact Hr|exact Ht|exact Hd|].
    exact Hbefore.
Qed.

End OtherRowChanges.

Lemma row_changes_other_than_insert_only_logged_witness :
  exists w' line,
    processV2 (pgx := quotingPgx) (repl := tableRepl updateOnlyTable)
      (quietEnv 0) digitMap ["000"%byte] (initWorld 0) = Done w'
    /\ relationsV2 w' = ∅
    /\ logged w' = [line].
Proof.
  destruct (proj1 (row_changes_other_than_insert_only_logged (pgx := quotingPgx)
                     (repl := tableRepl updateOnlyTable)
                     (quietEnv 0) digitMap ["000"%byte] (initWorld 0)
                     (MUpdateV2 5 {| TupleColumns := [textColumn "1"] |} 3))
              eq_refl I) as (w' & line & Hs & _ & Hr & _ & _ & Hl).
  exists w', line. split; [exact Hs|]. split; [exact Hr|exact Hl].
Defined.

Lemma first_undecodable_column_is_fatal_witness :
  switchV2 (pgx := quotingPgx) (quietEnv 0) digitMap
    (MInsertV2 (insertInto 1 0 [nullColumn; textColumn "1"; textColumn "x"]))
    (withRelationsV2
       {[ 1 := {| RelationV2 :=
                    {| RelationID := 1; Namespace := "public"; RelationName := "n";
                       ReplicaIdentity := 100;
                       Columns :=
                         [ {| Flags := 1; Name := "a"; DataType := int4OID; TypeModifier := -1 |};
                           {| Flags := 0; Name := "b"; DataType := int4OID; TypeModifier := -1 |};
                           {| Flags := 0; Name := "c"; DataType := int4OID; TypeModifier := -1 |} ] |};
                  RelationXid := 0 |} ]}
       (initWorld 0))
  = Fatal (Printf "error decoding column data: %v" [LErr "invalid syntax"]).
Proof.
  refine (proj1 (first_undecodable_column_is_fatal (pgx := quotingPgx)
                   (quietEnv 0) digitMap _ 2%nat
                   (textColumn "x")
                   {| Flags := 0; Name := "c"; DataType := int4OID; TypeModifier := -1 |}
                   "invalid syntax" _ _)
            (insertInto 1 0 [nullColumn; textColumn "1"; textColumn "x"]) _ _ _ _ _).
  - reflexivity.
  - reflexivity.
  - reflexivity.
  - reflexivity.
  - reflexivity.
  - intros [|[|j]] c r Hj Hc Hr Ht; cbn in Hc, Hr; [| |lia].
    + injection Hc as <-. discriminate Ht.
    + injection Hc as <-. injection Hr as <-. eexists. reflexivity.
Defined.
